(** * renumber_folders.py: the two-phase, collision-safe folder renumbering

    Shallow embedding of
    [03. JavaScript/01. ECMAScript (ES)/renumber_folders.py].

    - A directory listing is a [list entry] in the order [Path.iterdir]
      yields it; an entry is a name and the answer of [is_dir].
    - Names are [string]s whose characters are read as the code points
      below 256, on which [\d] is [0-9] and [\s] is the set [is_space].
    - The dictionaries [renumbering] and [temp_renames] are [gmap]s.
    - The script's effects (renames, [print]) are threaded through a
      state-and-exception monad over [world]; an exception keeps the
      world reached so far, as an aborted script leaves the tree.
    - [Path.rename] is the system call of the platform.  It is modelled as
      failing on a missing source and on an occupied target (what Windows
      always does, and POSIX whenever the occupant is a file or a directory
      that is not empty). *)

From Stdlib Require Import NArith Ascii String DecimalString DecimalN.
From stdpp Require Import base option list sorting strings gmap fin_maps.

Local Open Scope string_scope.
Local Open Scope list_scope.
Local Open Scope N_scope.

(** ** Characters and the regular expression *)

Module Re.

(** [\d] on code points below 256: the ASCII digits. *)
Definition is_digit (c : ascii) : bool :=
  let n := N_of_ascii c in (48 <=? n) && (n <=? 57).

(** [\s] on code points below 256, as [str.isspace] has it: TAB, LF, VT, FF,
    CR, the separators FS, GS, RS, US, the space, NEL and NBSP. *)
Definition is_space (c : ascii) : bool :=
  let n := N_of_ascii c in
  ((9 <=? n) && (n <=? 13)) || ((28 <=? n) && (n <=? 32))
  || (n =? 133) || (n =? 160).

(** The line feed, the one character [.] refuses. *)
Definition newline : ascii := ascii_of_N 10.

Definition is_newline (c : ascii) : bool := (N_of_ascii c =? 10).

(** Longest prefix of characters satisfying [p], and what follows it: what
    a greedy [x+] or [x*] consumes when what follows cannot start with [x]. *)
Fixpoint span (p : ascii -> bool) (s : string) : string * string :=
  match s with
  | EmptyString => (EmptyString, EmptyString)
  | String c r =>
      if p c then let '(a, b) := span p r in (String c a, b)
      else (EmptyString, s)
  end.

(** [(.+)$]: a non-empty run without line feed that reaches the end of the
    string or the line feed that ends it. *)
Definition dot_plus_eol (s : string) : option string :=
  let '(body, tl) := span (fun c => negb (is_newline c)) s in
  match body, tl with
  | EmptyString, _ => None
  | _, EmptyString => Some body
  | _, String _ EmptyString => Some body
  | _, _ => None
  end.

(** [re.match(r'^(\d+)\.\s(.+)$', s)]: the two groups of the match. *)
Definition re_match (s : string) : option (string * string) :=
  let '(ds, r) := span is_digit s in
  match ds, r with
  | String _ _, String dot (String ws r') =>
      if Ascii.eqb dot "." && is_space ws then
        match dot_plus_eol r' with
        | Some body => Some (ds, body)
        | None => None
        end
      else None
  | _, _ => None
  end.

End Re.

(** ** [int] and the format specification [02d] *)

(** [int(s)] on a string of decimal digits. *)
Definition int (s : string) : N :=
  match NilEmpty.uint_of_string s with
  | Some d => N.of_uint d
  | None => 0
  end.

(** [f"{n:02d}"]: the decimal digits, padded with a zero to two characters. *)
Definition fmt02 (n : N) : string :=
  let s := NilZero.string_of_uint (N.to_uint n) in
  if (String.length s <? 2)%nat then String "0" s else s.

(** [f"TEMP_{new_num:02d}. {label}"] *)
Definition temp_name (new_num : N) (label : string) : string :=
  "TEMP_" +:+ fmt02 new_num +:+ ". " +:+ label.

(** [f"{new_num:02d}. {rest}"] *)
Definition final_name (new_num : N) (rest : string) : string :=
  fmt02 new_num +:+ ". " +:+ rest.

Example re_match_loops : Re.re_match "08. Loops" = Some ("08", "Loops").
Proof. reflexivity. Qed.

Example int_08 : int "08" = 8.
Proof. reflexivity. Qed.

Example fmt02_8 : fmt02 8 = "08" /\ fmt02 0 = "00" /\ fmt02 33 = "33" /\ fmt02 100 = "100".
Proof. repeat split. Qed.

Example temp_name_10 : temp_name 10 "Loops" = "TEMP_10. Loops".
Proof. reflexivity. Qed.

(** ** The directory and the running script *)

(** An immediate child of the base directory: its name and what
    [item.is_dir()] answers. *)
Record entry := Entry { name : string; is_dir : bool }.

#[global] Instance entry_eq_dec : EqDecision entry.
Proof. solve_decision. Defined.

(** The failures [Path.rename] raises. *)
Inductive OSError := FileNotFoundError | FileExistsError.

#[global] Instance OSError_eq_dec : EqDecision OSError.
Proof. solve_decision. Defined.

(** A call of [Path.rename]: the listing it met, its source, its target. *)
Record rename_call := Call {
  call_listing : list entry;
  call_src : string;
  call_dst : string
}.

(** What the script acts on: the base directory (in [iterdir] order) and the
    lines printed.  [history] is the sequence of [rename] calls issued so
    far; the script has no such variable, it only lets the theorems speak of
    the moment a call is issued. *)
Record world := World {
  disk : list entry;
  stdout : list string;
  history : list rename_call
}.

Definition names (d : list entry) : list string := name <$> d.

(** Outcome of a command: a value, or an exception that ends the script;
    either way the world reached. *)
Inductive result (A : Type) :=
  | Done (a : A) (w : world)
  | Raised (e : OSError) (w : world).
Arguments Done {A} a w.
Arguments Raised {A} e w.

Definition final_world {A} (r : result A) : world :=
  match r with Done _ w => w | Raised _ w => w end.

Definition M (A : Type) : Type := world -> result A.

#[global] Instance M_ret : MRet M := fun A a w => Done a w.
#[global] Instance M_bind : MBind M := fun A B f c w =>
  match c w with
  | Done a w' => f a w'
  | Raised e w' => Raised e w'
  end.

(** [for x in l: acc = f(acc, x)] *)
Fixpoint foldM {A B} (f : B -> A -> M B) (acc : B) (l : list A) : M B :=
  match l with
  | [] => mret acc
  | x :: l' => acc' ← f acc x; foldM f acc' l'
  end.

Definition print (line : string) : M unit := fun w =>
  Done tt (World (disk w) (stdout w ++ [line]) (history w)).

(** [Path('.').iterdir()] *)
Definition iterdir : M (list entry) := fun w => Done (disk w) w.

Definition rename_entry (src dst : string) (e : entry) : entry :=
  if decide (name e = src) then Entry dst (is_dir e) else e.

(** [Path(src).rename(dst)]: the entry keeps its place in the listing. *)
Definition os_rename (src dst : string) : M unit := fun w =>
  let h := history w ++ [Call (disk w) src dst] in
  if decide (src ∈ names (disk w)) then
    if decide (dst = src) then Done tt (World (disk w) (stdout w) h)
    else if decide (dst ∈ names (disk w)) then
      Raised FileExistsError (World (disk w) (stdout w) h)
    else Done tt (World (rename_entry src dst <$> disk w) (stdout w) h)
  else Raised FileNotFoundError (World (disk w) (stdout w) h).

(** [sorted(d.keys())] and [sorted(d.keys(), reverse=True)] *)
Definition sorted_keys {V} (d : gmap N V) : list N :=
  merge_sort N.le (elements (dom d)).
Definition sorted_keys_reverse {V} (d : gmap N V) : list N :=
  merge_sort (flip N.le) (elements (dom d)).

Abbreviation records := (gmap N (string * string)).

(** The inner loop of phase 1, [for item in Path('.').iterdir(): ...], on
    the items not yet visited; it ends at the first [break]. *)
Fixpoint scan (old_num new_num : N) (items : list entry)
    (temp_renames : records) : M records :=
  match items with
  | [] => mret temp_renames
  | item :: rest =>
      if is_dir item then
        match Re.re_match (name item) with
        | Some (group1, group2) =>
            if int group1 =? old_num then
              let old_name := name item in
              let temp := temp_name new_num group2 in
              print ("  " +:+ old_name +:+ " -> " +:+ temp);;
              os_rename old_name temp;;
              mret (<[new_num := (temp, group2)]> temp_renames)
            else scan old_num new_num rest temp_renames
        | None => scan old_num new_num rest temp_renames
        end
      else scan old_num new_num rest temp_renames
  end.

(** The body of the outer loop of phase 1. *)
Definition phase1_step (renumbering : gmap N N)
    (temp_renames : records) (old_num : N) : M records :=
  match renumbering !! old_num with
  | Some new_num =>
      items ← iterdir; scan old_num new_num items temp_renames
  | None => mret temp_renames
  end.

Definition nl : string := String Re.newline "".

Definition phase1 (renumbering : gmap N N) : M records :=
  print "Phase 1: Renaming to temporary names...";;
  foldM (phase1_step renumbering) ∅ (sorted_keys_reverse renumbering).

(** The body of the loop of phase 2. *)
Definition phase2_step (temp_renames : records) (_ : unit) (new_num : N)
    : M unit :=
  match temp_renames !! new_num with
  | Some (temp, rest) =>
      let final := final_name new_num rest in
      print ("  " +:+ temp +:+ " -> " +:+ final);;
      os_rename temp final
  | None => mret tt
  end.

Definition phase2 (temp_renames : records) : M unit :=
  print (nl +:+ "Phase 2: Renaming to final names...");;
  foldM (phase2_step temp_renames) tt (sorted_keys temp_renames).

(** The script, with the renumbering map as its parameter; it answers the
    record of temporary names it built. *)
Definition main (renumbering : gmap N N) : M records :=
  temp_renames ← phase1 renumbering;
  phase2 temp_renames;;
  print (nl +:+ "✅ Folder renumbering complete!");;
  mret temp_renames.

(** A run from a directory, nothing printed and no call issued yet. *)
Definition run (renumbering : gmap N N) (d : list entry) : result records :=
  main renumbering (World d [] []).

(** The map the script has. *)
Definition renumbering : gmap N N :=
  list_to_map
    [(26, 33); (25, 32); (24, 31); (29, 30); (23, 29); (22, 28); (21, 27);
     (20, 26); (19, 25); (32, 24); (31, 23); (28, 22); (27, 21); (18, 20);
     (17, 19); (16, 18); (15, 17); (14, 16); (13, 15); (12, 14); (11, 13);
     (10, 12); (9, 11); (8, 10); (33, 9); (30, 8)].

Definition dir (s : string) : entry := Entry s true.
Definition file (s : string) : entry := Entry s false.

(** ** What the theorems speak of *)

(** Every character of [s] satisfies [p]. *)
Fixpoint all_chars (p : ascii -> bool) (s : string) : bool :=
  match s with
  | EmptyString => true
  | String c r => p c && all_chars p r
  end.

(** What [(.+)] can capture: a non-empty text without line feed. *)
Definition valid_label (l : string) : Prop :=
  l ≠ "" ∧ all_chars (fun c => negb (Re.is_newline c)) l = true.

(** The language of [^(\d+)\.\s(.+)$] under [re.match], with its groups:
    digits, a period, one character of [\s], the label, and then the end of
    the string, or one line feed and the end of the string. *)
Definition matches (s g1 g2 : string) : Prop :=
  g1 ≠ "" ∧ all_chars Re.is_digit g1 = true ∧ valid_label g2 ∧
  ∃ ws, Re.is_space ws = true ∧
    (s = g1 +:+ String "." (String ws g2) ∨
     s = g1 +:+ String "." (String ws (g2 +:+ nl))).

(** The ordinal and the label of an item that the inner loop of phase 1
    tests against [old_num]: [item.is_dir()] and the pattern matches. *)
Definition candidate (item : entry) : option (N * string) :=
  if is_dir item then
    match Re.re_match (name item) with
    | Some (group1, group2) => Some (int group1, group2)
    | None => None
    end
  else None.

(** The item at which the inner loop of phase 1 breaks, and its label. *)
Fixpoint first_match (old_num : N) (items : list entry)
    : option (entry * string) :=
  match items with
  | [] => None
  | item :: rest =>
      match candidate item with
      | Some (n, label) =>
          if n =? old_num then Some (item, label)
          else first_match old_num rest
      | None => first_match old_num rest
      end
  end.

(** The name starts with the marker of the temporary names. *)
Definition has_marker (s : string) : bool :=
  match s with
  | String "T" (String "E" (String "M" (String "P" (String "_" _)))) => true
  | _ => false
  end.

(** The map sends distinct keys to distinct new ordinals. *)
Definition injective (m : gmap N N) : Prop :=
  ∀ k1 k2 n, m !! k1 = Some n → m !! k2 = Some n → k1 = k2.

(** The map is a permutation of its set of keys. *)
Definition permutation (m : gmap N N) : Prop :=
  injective m ∧ ∀ k n, m !! k = Some n → n ∈ dom m.

(** The matching children have pairwise distinct ordinals. *)
Definition distinct_ordinals (d : list entry) : Prop :=
  ∀ e1 e2 n l1 l2, e1 ∈ d → e2 ∈ d →
    candidate e1 = Some (n, l1) → candidate e2 = Some (n, l2) → e1 = e2.

(** A call of [rename] that found distinct names, its source, and a free
    target, and that either stages a name of the pattern under a temporary
    name or commits a temporary name to its final name. *)
Definition ok_call (c : rename_call) : Prop :=
  NoDup (names (call_listing c)) ∧
  call_src c ∈ names (call_listing c) ∧
  (call_dst c ∉ names (call_listing c)) ∧
  ((∃ n l, (Re.re_match (call_src c) ≠ None) ∧ call_dst c = temp_name n l) ∨
   (∃ n l, call_src c = temp_name n l ∧ call_dst c = final_name n l)).

(** The history [h] is that of renames which led from the listing [d] to
    the listing [d']: each call met the listing the one before it left. *)
Fixpoint chain (d : list entry) (h : list rename_call) (d' : list entry)
    : Prop :=
  match h with
  | [] => d' = d
  | c :: h' =>
      call_listing c = d ∧
      chain (rename_entry (call_src c) (call_dst c) <$> d) h' d'
  end.

(** From the listing [d] on, the world went through renames that were all
    in order. *)
Definition sound (d : list entry) (w : world) : Prop :=
  Forall ok_call (history w) ∧ chain d (history w) (disk w).

(** ** Strings *)

Section strings.

Lemma append_cons (x : ascii) (a b : string) :
  String x a +:+ b = String x (a +:+ b).
Proof. done. Qed.

Lemma append_nil_l (b : string) : "" +:+ b = b.
Proof. done. Qed.

Lemma span_app p (a b : string) :
  all_chars p a = true →
  (∀ c r, b = String c r → p c = false) →
  Re.span p (a +:+ b) = (a, b).
Proof.
  intros Ha Hb. induction a as [|x a IH].
  - rewrite append_nil_l. destruct b as [|c r]; [done|].
    simpl. by rewrite (Hb c r).
  - simpl in Ha. apply andb_true_iff in Ha as [Hx Ha].
    rewrite append_cons. simpl. rewrite Hx, IH; done.
Qed.

Lemma span_spec p (s a b : string) :
  Re.span p s = (a, b) →
  s = a +:+ b ∧ all_chars p a = true ∧ ∀ c r, b = String c r → p c = false.
Proof.
  revert a b. induction s as [|x s IH]; intros a b; simpl.
  - intros [= <- <-]. by repeat split.
  - destruct (p x) eqn:Hx.
    + destruct (Re.span p s) as [a' b'] eqn:Hs. intros [= <- <-].
      destruct (IH a' b' eq_refl) as (-> & Ha & Hb).
      repeat split; [|done]. simpl. by rewrite Hx, Ha.
    + intros [= <- <-]. repeat split. intros c r [= <- <-]. done.
Qed.

Lemma dot_plus_eol_spec (s body : string) :
  Re.dot_plus_eol s = Some body ↔
  valid_label body ∧ (s = body ∨ s = body +:+ nl).
Proof.
  unfold Re.dot_plus_eol, valid_label. split.
  - destruct (Re.span _ s) as [a b] eqn:Hs.
    apply span_spec in Hs as (-> & Ha & Hb).
    destruct a as [|x a]; [done|]. destruct b as [|c [|??]]; intros [= <-].
    + split; [done|]. left. clear. induction (String x a) as [|? ? IH]; [done|].
      rewrite append_cons. by f_equal.
    + split; [done|]. right. do 2 f_equal.
      specialize (Hb c "" eq_refl). apply negb_false_iff in Hb.
      unfold Re.is_newline in Hb. apply N.eqb_eq in Hb.
      unfold Re.newline. rewrite <- Hb. by rewrite ascii_N_embedding.
  - intros [[Hne Hall] [-> | ->]].
    + assert (body = body +:+ "") as Hb.
      { clear. induction body as [|? ? IH]; [done|]. rewrite append_cons. by f_equal. }
      rewrite Hb at 1. rewrite span_app; [|done|done].
      by destruct body.
    + rewrite span_app; [|done|].
      * by destruct body.
      * intros c r [= <- <-]. done.
Qed.

Lemma re_match_spec (s g1 g2 : string) :
  Re.re_match s = Some (g1, g2) ↔ matches s g1 g2.
Proof.
  unfold Re.re_match, matches. split.
  - destruct (Re.span Re.is_digit s) as [a b] eqn:Hs.
    apply span_spec in Hs as (-> & Ha & Hb).
    destruct a as [|x a]; [done|]. destruct b as [|dot [|ws r]]; [done..|].
    destruct (Ascii.eqb dot ".") eqn:Hdot; [|done].
    destruct (Re.is_space ws) eqn:Hws; [|done]. simpl.
    destruct (Re.dot_plus_eol r) as [body|] eqn:Hr; [|done].
    intros [= <- <-]. apply Ascii.eqb_eq in Hdot as ->.
    apply dot_plus_eol_spec in Hr as [Hv Hr].
    repeat split; [done|done|apply Hv|apply Hv|].
    exists ws. split; [done|]. destruct Hr as [-> | ->]; auto.
  - intros (Hne & Hd & Hv & ws & Hws & Hs).
    assert (Re.span Re.is_digit s = (g1, String "." (String ws
      (if decide (s = g1 +:+ String "." (String ws g2)) then g2 else g2 +:+ nl)))) as ->.
    { case_decide as Heq.
      - rewrite Heq at 1. apply span_app; [done|]. by intros c r [= <- <-].
      - destruct Hs as [?| ->]; [done|]. apply span_app; [done|]. by intros c r [= <- <-]. }
    destruct g1 as [|x a]; [done|]. simpl. rewrite Hws.
    assert (Re.dot_plus_eol (if decide (s = String x a +:+ String "." (String ws g2))
      then g2 else g2 +:+ nl) = Some g2) as ->; [|done].
    apply dot_plus_eol_spec. split; [done|]. case_decide; auto.
Qed.

End strings.

(** ** Ordinals in names *)

Section ordinals.

Lemma string_of_uint_digits (d : Decimal.uint) :
  all_chars Re.is_digit (NilEmpty.string_of_uint d) = true.
Proof. induction d; simpl; auto. Qed.

Lemma fmt02_digits (n : N) : all_chars Re.is_digit (fmt02 n) = true.
Proof.
  unfold fmt02.
  assert (all_chars Re.is_digit (NilZero.string_of_uint (N.to_uint n)) = true) as H.
  { destruct (N.to_uint n); try apply string_of_uint_digits. done. }
  case_match; [|done]. simpl. by rewrite H.
Qed.

Lemma fmt02_nonempty (n : N) : fmt02 n ≠ "".
Proof.
  unfold fmt02. destruct (NilZero.string_of_uint (N.to_uint n)) eqn:E; [done|].
  by case_match.
Qed.

Lemma int_string_of_uint (n : N) :
  int (NilZero.string_of_uint (N.to_uint n)) = n.
Proof.
  unfold int. pose proof (Unsigned.of_to n) as Hn.
  destruct (N.to_uint n) eqn:E;
    try (change (NilZero.string_of_uint ?d) with (NilEmpty.string_of_uint d);
         by rewrite NilEmpty.usu).
  by destruct n.
Qed.

Lemma int_cons_zero (s : string) : int (String "0" s) = int s.
Proof. unfold int. simpl. by destruct (NilEmpty.uint_of_string s). Qed.

(** The ordinal printed by [02d] reads back as itself. *)
Lemma int_fmt02 (n : N) : int (fmt02 n) = n.
Proof.
  unfold fmt02. case_match.
  - by rewrite int_cons_zero, int_string_of_uint.
  - apply int_string_of_uint.
Qed.

Lemma re_match_final (n : N) (l : string) :
  valid_label l → Re.re_match (final_name n l) = Some (fmt02 n, l).
Proof.
  intros Hl. apply re_match_spec. repeat split; try apply Hl.
  - apply fmt02_nonempty.
  - apply fmt02_digits.
  - exists " "%char. split; [done|]. by left.
Qed.

(** A temporary name never matches the pattern: it starts with [T]. *)
Lemma re_match_temp (n : N) (l : string) : Re.re_match (temp_name n l) = None.
Proof. done. Qed.

Lemma candidate_valid (e : entry) (n : N) (l : string) :
  candidate e = Some (n, l) → valid_label l.
Proof.
  unfold candidate. destruct (is_dir e); [|done].
  destruct (Re.re_match (name e)) as [[g1 g2]|] eqn:E; [|done].
  intros [= <- <-]. apply re_match_spec in E. apply E.
Qed.

Lemma candidate_re_match (e : entry) (n : N) (l : string) :
  candidate e = Some (n, l) → Re.re_match (name e) ≠ None.
Proof.
  unfold candidate. destruct (is_dir e); [|done].
  by destruct (Re.re_match (name e)).
Qed.

Lemma candidate_is_dir (e : entry) (n : N) (l : string) :
  candidate e = Some (n, l) → is_dir e = true.
Proof. unfold candidate. by destruct (is_dir e). Qed.

Lemma candidate_final (n : N) (l : string) (b : bool) :
  valid_label l →
  candidate (Entry (final_name n l) b) = if b then Some (n, l) else None.
Proof.
  intros Hl. unfold candidate. simpl. destruct b; [|done].
  by rewrite re_match_final, int_fmt02.
Qed.

Lemma candidate_temp (n : N) (l : string) (b : bool) :
  candidate (Entry (temp_name n l) b) = None.
Proof.
  unfold candidate. destruct b; [|done]. cbn [is_dir name].
  by rewrite re_match_temp.
Qed.

Lemma span_final_name (n : N) (l : string) :
  Re.span Re.is_digit (final_name n l) = (fmt02 n, ". " +:+ l).
Proof.
  apply span_app; [apply fmt02_digits|]. by intros c r [= <- <-].
Qed.

Lemma final_name_inj (n1 n2 : N) (l1 l2 : string) :
  final_name n1 l1 = final_name n2 l2 → n1 = n2 ∧ l1 = l2.
Proof.
  intros Heq. pose proof (span_final_name n1 l1) as E.
  rewrite Heq, span_final_name in E. injection E as E1 E2.
  split; [|done]. by rewrite <- (int_fmt02 n1), <- (int_fmt02 n2), E1.
Qed.

Lemma temp_name_inj (n1 n2 : N) (l1 l2 : string) :
  temp_name n1 l1 = temp_name n2 l2 → n1 = n2 ∧ l1 = l2.
Proof.
  intros Heq. apply final_name_inj.
  unfold temp_name in Heq. by apply (inj (String.append "TEMP_")) in Heq.
Qed.

Lemma temp_name_not_final (n n' : N) (l l' : string) :
  temp_name n l ≠ final_name n' l'.
Proof.
  unfold final_name. pose proof (fmt02_digits n') as Hd.
  pose proof (fmt02_nonempty n') as Hne.
  destruct (fmt02 n') as [|c r]; [done|]. simpl in Hd.
  intros [= <- _]. done.
Qed.

Lemma temp_name_marker (n : N) (l : string) :
  has_marker (temp_name n l) = true.
Proof. done. Qed.

Lemma candidate_not_temp (e : entry) (k n : N) (l l' : string) :
  candidate e = Some (k, l) → name e ≠ temp_name n l'.
Proof.
  unfold candidate. destruct (is_dir e); [|done]. intros H Heq.
  by rewrite Heq, re_match_temp in H.
Qed.

End ordinals.

(** ** The commands *)

Section commands.

Lemma bind_run {A B} (c : M A) (f : A → M B) (w : world) :
  (c ≫= f) w =
  match c w with Done a w' => f a w' | Raised e w' => Raised e w' end.
Proof. done. Qed.

Lemma print_bind {A} (line : string) (c : M A) (w : world) :
  (print line;; c) w = c (World (disk w) (stdout w ++ [line]) (history w)).
Proof. done. Qed.

(** An invariant of the loop body is one of the loop, however it ends. *)
Lemma foldM_invariant {A B} (I : B → world → Prop) (J : world → Prop)
    (f : B → A → M B) (l : list A) (b : B) (w : world) :
  (∀ b w x, x ∈ l → I b w →
     match f b x w with Done b' w' => I b' w' | Raised _ w' => J w' end) →
  I b w →
  match foldM f b l w with Done b' w' => I b' w' | Raised _ w' => J w' end.
Proof.
  revert b w. induction l as [|x l IH]; intros b w Hf HI; [done|].
  simpl. rewrite bind_run.
  pose proof (Hf b w x (list_elem_of_here _ _) HI) as Hx.
  destruct (f b x w) as [b' w'|]; [|done].
  apply IH; [|done]. intros ??? Hin. apply Hf. by apply list_elem_of_further.
Qed.

Lemma chain_snoc (d d1 : list entry) (h : list rename_call) (src dst : string) :
  chain d h d1 →
  chain d (h ++ [Call d1 src dst]) (rename_entry src dst <$> d1).
Proof.
  revert d. induction h as [|c h IH]; intros d; simpl.
  - by intros ->.
  - intros [-> Hc]. split; [done|]. by apply IH.
Qed.

Lemma os_rename_done (src dst : string) (w : world) :
  src ∈ names (disk w) → dst ∉ names (disk w) →
  os_rename src dst w =
  Done tt (World (rename_entry src dst <$> disk w) (stdout w)
                 (history w ++ [Call (disk w) src dst])).
Proof.
  intros Hs Hd. unfold os_rename. rewrite decide_True by done.
  rewrite decide_False by (by intros ->). by rewrite decide_False.
Qed.

Lemma os_rename_exists (src dst : string) (w : world) :
  src ∈ names (disk w) → dst ∈ names (disk w) → dst ≠ src →
  os_rename src dst w =
  Raised FileExistsError
    (World (disk w) (stdout w) (history w ++ [Call (disk w) src dst])).
Proof.
  intros Hs Hd Hne. unfold os_rename. rewrite decide_True by done.
  rewrite decide_False by done. by rewrite decide_True.
Qed.

(** The inner loop of phase 1 does nothing up to the first match, and its
    body once there. *)
Lemma scan_first_match (old_num new_num : N) (items : list entry)
    (R : records) (w : world) :
  scan old_num new_num items R w =
  match first_match old_num items with
  | Some (item, label) =>
      (print ("  " +:+ name item +:+ " -> " +:+ temp_name new_num label);;
       os_rename (name item) (temp_name new_num label);;
       mret (<[new_num := (temp_name new_num label, label)]> R)) w
  | None => Done R w
  end.
Proof.
  induction items as [|item rest IH]; [done|].
  simpl. unfold candidate. destruct (is_dir item); [|done].
  destruct (Re.re_match (name item)) as [[g1 g2]|]; [|done].
  by destruct (int g1 =? old_num).
Qed.

Lemma first_match_Some (k : N) (d : list entry) (e : entry) (l : string) :
  first_match k d = Some (e, l) →
  ∃ pre post, d = pre ++ e :: post ∧ candidate e = Some (k, l) ∧
    ∀ x l', x ∈ pre → candidate x ≠ Some (k, l').
Proof.
  induction d as [|x d IH]; [done|]. simpl.
  destruct (candidate x) as [[n lx]|] eqn:Hx.
  - destruct (n =? k) eqn:Hn.
    + intros [= <- <-]. apply N.eqb_eq in Hn as ->.
      exists [], d. repeat split; [done|]. intros ?? Hin. inversion Hin.
    + apply N.eqb_neq in Hn. intros (pre & post & -> & Hc & Hpre)%IH.
      exists (x :: pre), post. repeat split; [done|].
      intros y l' [-> | Hin]%elem_of_cons; [congruence|by apply Hpre].
  - intros (pre & post & -> & Hc & Hpre)%IH.
    exists (x :: pre), post. repeat split; [done|].
    intros y l' [-> | Hin]%elem_of_cons; [congruence|by apply Hpre].
Qed.

Lemma first_match_elem (k : N) (d : list entry) (e : entry) (l : string) :
  first_match k d = Some (e, l) → e ∈ d ∧ candidate e = Some (k, l).
Proof.
  intros (pre & post & -> & Hc & _)%first_match_Some. split; [|done].
  apply elem_of_app. right. apply list_elem_of_here.
Qed.

Lemma first_match_None (k : N) (d : list entry) :
  first_match k d = None ↔ ∀ x l, x ∈ d → candidate x ≠ Some (k, l).
Proof.
  induction d as [|x d IH]; simpl.
  - split; [|done]. intros _ ?? Hin. inversion Hin.
  - destruct (candidate x) as [[n lx]|] eqn:Hx.
    + destruct (n =? k) eqn:Hn.
      * apply N.eqb_eq in Hn as ->. split; [done|]. intros H.
        by destruct (H x lx (list_elem_of_here _ _)).
      * apply N.eqb_neq in Hn. rewrite IH. split.
        -- intros H y l [-> | Hin]%elem_of_cons; [congruence|by apply H].
        -- intros H y l Hin. apply H. by apply list_elem_of_further.
    + rewrite IH. split.
      * intros H y l [-> | Hin]%elem_of_cons; [congruence|by apply H].
      * intros H y l Hin. apply H. by apply list_elem_of_further.
Qed.

(** With distinct ordinals, the first match is the only one. *)
Lemma first_match_distinct (d : list entry) (e : entry) (k : N) (l : string) :
  distinct_ordinals d → e ∈ d → candidate e = Some (k, l) →
  first_match k d = Some (e, l).
Proof.
  intros Hd Hin Hc. destruct (first_match k d) as [[e' l']|] eqn:E.
  - apply first_match_elem in E as [Hin' Hc'].
    assert (e' = e) as -> by eauto. congruence.
  - by destruct (proj1 (first_match_None k d) E e l).
Qed.

(** A renaming that leaves alone the items of ordinal [k], and gives the
    others it touches names out of the pattern, does not change what the
    inner loop finds for [k]. *)
Lemma first_match_fmap (f : entry → entry) (k : N) (d : list entry) :
  (∀ x, x ∈ d →
     f x = x ∨ (candidate (f x) = None ∧ ∀ l, candidate x ≠ Some (k, l))) →
  first_match k (f <$> d) = first_match k d.
Proof.
  induction d as [|x d IH]; [done|]. intros Hf.
  rewrite fmap_cons. cbn [first_match].
  rewrite IH by (intros; apply Hf; by apply list_elem_of_further).
  destruct (Hf x (list_elem_of_here _ _)) as [-> | [-> Hx]]; [done|].
  destruct (candidate x) as [[n lx]|]; [|done].
  destruct (n =? k) eqn:Hn; [|done]. apply N.eqb_eq in Hn as ->.
  by destruct (Hx lx).
Qed.

Lemma names_inj (d : list entry) (x y : entry) :
  NoDup (names d) → x ∈ d → y ∈ d → name x = name y → x = y.
Proof.
  unfold names. intros Hnd Hx Hy Heq.
  apply list_elem_of_lookup in Hx as [i Hi]. apply list_elem_of_lookup in Hy as [j Hj].
  assert (i = j) as ->; [|congruence].
  eapply NoDup_lookup; [exact Hnd|..]; rewrite list_lookup_fmap.
  - by rewrite Hi.
  - rewrite Hj. simpl. by rewrite Heq.
Qed.

Lemma fmap_inj_on (f : entry → entry) (d : list entry) (x y : entry) :
  NoDup (names (f <$> d)) → x ∈ d → y ∈ d →
  name (f x) = name (f y) → x = y.
Proof.
  unfold names. intros Hnd Hx Hy Heq.
  apply list_elem_of_lookup in Hx as [i Hi]. apply list_elem_of_lookup in Hy as [j Hj].
  assert (i = j) as ->; [|congruence].
  eapply NoDup_lookup; [exact Hnd|..]; rewrite !list_lookup_fmap.
  - by rewrite Hi.
  - rewrite Hj. simpl. by rewrite Heq.
Qed.

(** Renaming to a free name keeps the names distinct. *)
Lemma rename_NoDup (src dst : string) (d : list entry) :
  NoDup (names d) → dst ∉ names d →
  NoDup (names (rename_entry src dst <$> d)).
Proof.
  unfold names. induction d as [|x d IH]; [done|].
  rewrite !fmap_cons, !NoDup_cons, !not_elem_of_cons.
  intros [Hx Hnd] [Hne Hd]. split; [|by apply IH].
  rewrite <- list_fmap_compose, list_elem_of_fmap. intros (y & Heq & Hy).
  simpl in Heq. unfold rename_entry in Heq.
  assert (name y ∈ name <$> d) as Hyn by (apply list_elem_of_fmap; eauto).
  repeat case_decide; simpl in *; subst; try done.
  all: congruence.
Qed.

End commands.

(** ** The two phases as one renaming of the initial listing *)

Section two_phases.

Variable m : gmap N N.
Variable d0 : list entry.
Hypothesis d0_NoDup : NoDup (names d0).

(** The new ordinal and the label of an item of the initial listing that
    phase 1 has moved once it has gone through the keys [K]: the item is the
    first match of one of them. *)
Definition chosen (K : list N) (e : entry) : option (N * string) :=
  match candidate e with
  | Some (k, l) =>
      if decide (k ∈ K ∧ first_match k d0 = Some (e, l)) then
        match m !! k with Some n' => Some (n', l) | None => None end
      else None
  | None => None
  end.

(** The item after phase 1 has gone through the keys [K]. *)
Definition stage (K : list N) (e : entry) : entry :=
  match chosen K e with
  | Some (n', l) => Entry (temp_name n' l) (is_dir e)
  | None => e
  end.

(** The item after phase 1 has gone through [K] and left the record [R],
    and phase 2 has gone through the new ordinals [T]. *)
Definition placed (K : list N) (R : records) (T : list N) (e : entry) : entry :=
  match chosen K e with
  | Some (n', l) =>
      if decide (n' ∈ T ∧ R !! n' = Some (temp_name n' l, l))
      then Entry (final_name n' l) (is_dir e)
      else Entry (temp_name n' l) (is_dir e)
  | None => e
  end.

(** What one turn of the outer loop of phase 1 does to the record. *)
Definition record_step (R : records) (k : N) : records :=
  match m !! k, first_match k d0 with
  | Some n', Some (_, l) => <[n' := (temp_name n' l, l)]> R
  | _, _ => R
  end.

(** Every record is the temporary name of a first match of a key of [K]. *)
Definition records_ok (K : list N) (R : records) : Prop :=
  ∀ n t l, R !! n = Some (t, l) →
    t = temp_name n l ∧
    ∃ k e, k ∈ K ∧ m !! k = Some n ∧ first_match k d0 = Some (e, l).

Lemma chosen_Some K e n' l :
  chosen K e = Some (n', l) ↔
  ∃ k, candidate e = Some (k, l) ∧ k ∈ K ∧ first_match k d0 = Some (e, l) ∧
       m !! k = Some n'.
Proof.
  unfold chosen. split.
  - destruct (candidate e) as [[k l']|]; [|done].
    case_decide as Hd; [|done]. destruct Hd as [Hin Hf].
    destruct (m !! k) eqn:Hk; [|done]. intros [= <- <-]. by exists k.
  - intros (k & -> & Hk & Hf & ->). by rewrite decide_True.
Qed.

Lemma chosen_nil e : chosen [] e = None.
Proof.
  unfold chosen. destruct (candidate e) as [[k l]|]; [|done].
  rewrite decide_False; [done|]. intros [H _]. by apply elem_of_nil in H.
Qed.

Lemma stage_nil : stage [] <$> d0 = d0.
Proof.
  rewrite <- (list_fmap_id d0) at 2. apply list_fmap_ext.
  intros i x _. unfold stage. by rewrite chosen_nil.
Qed.

Lemma placed_nil K R : placed K R [] <$> d0 = stage K <$> d0.
Proof.
  apply list_fmap_ext. intros i x _. unfold placed, stage.
  destruct (chosen K x) as [[n' l]|]; [|done].
  rewrite decide_False; [done|]. intros [H _]. by apply elem_of_nil in H.
Qed.

(** Phase 1 does not disturb what its later turns will find. *)
Lemma first_match_stage K k :
  k ∉ K → first_match k (stage K <$> d0) = first_match k d0.
Proof.
  intros Hk. apply first_match_fmap. intros x _. unfold stage.
  destruct (chosen K x) as [[n' l]|] eqn:E; [|by left]. right.
  apply chosen_Some in E as (k' & Hc & Hin & _). split.
  - apply candidate_temp.
  - intros l'. rewrite Hc. intros [= -> _]. done.
Qed.

Lemma stage_turn K k n' e l x :
  k ∉ K → m !! k = Some n' → first_match k d0 = Some (e, l) → x ∈ d0 →
  rename_entry (name e) (temp_name n' l) (stage K x) = stage (K ++ [k]) x.
Proof.
  intros Hk Hm Hf Hx. pose proof (first_match_elem _ _ _ _ Hf) as [He Hc].
  unfold rename_entry. destruct (decide (x = e)) as [-> | Hne].
  - assert (chosen K e = None) as HK.
    { unfold chosen. rewrite Hc. rewrite decide_False; [done|]. by intros [? _]. }
    assert (chosen (K ++ [k]) e = Some (n', l)) as HK'.
    { apply chosen_Some. exists k. repeat split; [done| |done|done].
      apply elem_of_app. right. by apply list_elem_of_singleton. }
    unfold stage. rewrite HK, HK'. by rewrite decide_True.
  - assert (chosen (K ++ [k]) x = chosen K x) as HK.
    { unfold chosen. destruct (candidate x) as [[k' l']|] eqn:Hcx; [|done].
      destruct (decide (k' ∈ K ∧ first_match k' d0 = Some (x, l'))) as [H|H].
      - rewrite decide_True; [done|]. split; [|apply H].
        apply elem_of_app. left. apply H.
      - rewrite decide_False; [done|]. intros [Hin Hf'].
        apply elem_of_app in Hin as [Hin | ->%list_elem_of_singleton]; [tauto|].
        congruence. }
    unfold stage. rewrite HK. rewrite decide_False; [done|].
    destruct (chosen K x) as [[n'' l'']|] eqn:E; simpl.
    + intros Heq. symmetry in Heq. by apply candidate_not_temp with (n := n'') (l' := l'') in Hc.
    + intros Heq. apply Hne. by apply (names_inj d0).
Qed.

Lemma stage_skip K k :
  (m !! k = None ∨ first_match k d0 = None) →
  stage (K ++ [k]) <$> d0 = stage K <$> d0.
Proof.
  intros Hk. apply list_fmap_ext. intros i x _. unfold stage.
  assert (chosen (K ++ [k]) x = chosen K x) as ->; [|done].
  unfold chosen. destruct (candidate x) as [[k' l']|] eqn:Hcx; [|done].
  destruct (decide (k' ∈ K ∧ first_match k' d0 = Some (x, l'))) as [H|H].
  - rewrite decide_True; [done|]. split; [|apply H].
    apply elem_of_app. left. apply H.
  - destruct (decide (k' = k)) as [-> | Hne].
    + destruct Hk as [-> | Hk]; [by case_decide|].
      rewrite decide_False; [done|]. intros [_ Hf]. congruence.
    + rewrite decide_False; [done|]. intros [Hin Hf'].
      apply elem_of_app in Hin as [Hin | ->%list_elem_of_singleton]; tauto.
Qed.

(** One turn of the outer loop of phase 1. *)
Lemma phase1_step_spec K R k w :
  k ∉ K → disk w = stage K <$> d0 → NoDup (names (disk w)) →
  match m !! k, first_match k d0 with
  | Some n', Some (e, l) =>
      if decide (temp_name n' l ∈ names (disk w)) then
        ∃ w', phase1_step m R k w = Raised FileExistsError w'
      else
        ∃ w', phase1_step m R k w = Done (record_step R k) w' ∧
              disk w' = stage (K ++ [k]) <$> d0 ∧ NoDup (names (disk w')) ∧
              (∀ d, sound d w → sound d w')
  | _, _ =>
      phase1_step m R k w = Done R w ∧ record_step R k = R ∧
      stage (K ++ [k]) <$> d0 = stage K <$> d0
  end.
Proof.
  intros Hk Hd Hnd. unfold phase1_step, record_step.
  destruct (m !! k) as [n'|] eqn:Hm; [|by rewrite stage_skip by auto].
  unfold iterdir. rewrite bind_run, scan_first_match, Hd, first_match_stage by done.
  destruct (first_match k d0) as [[e l]|] eqn:Hf; [|by rewrite stage_skip by auto].
  pose proof (first_match_elem _ _ _ _ Hf) as [He Hc].
  assert (name e ∈ names (stage K <$> d0)) as Hsrc.
  { unfold names. rewrite <- list_fmap_compose. apply list_elem_of_fmap.
    exists e. split; [|done]. simpl. unfold stage.
    assert (chosen K e = None) as ->; [|done].
    unfold chosen. rewrite Hc. rewrite decide_False; [done|]. by intros [? _]. }
  rewrite <- Hd in *. rewrite print_bind, bind_run.
  case_decide as Hdst.
  - rewrite os_rename_exists; [eauto|done|done|].
    intros Heq. symmetry in Heq. by apply candidate_not_temp with (n := n') (l' := l) in Hc.
  - rewrite os_rename_done by done. eexists. split; [done|]. simpl. split.
    + rewrite Hd, <- list_fmap_compose. apply list_fmap_ext.
      intros i x Hx. simpl. apply (stage_turn K k n' e l x); try done.
      by eapply list_elem_of_lookup_2.
    + split; [by apply rename_NoDup|]. intros d [Hh Hch].
      split; [|by apply chain_snoc]. simpl.
      apply Forall_app. split; [done|]. apply Forall_singleton.
      repeat split; try done. left. exists n', l. split; [|done].
      by eapply candidate_re_match.
Qed.

(** Phase 1 through the keys [ks], after the keys [K]. *)
Lemma phase1_fold ks : ∀ K R w,
  NoDup (K ++ ks) → disk w = stage K <$> d0 → NoDup (names (disk w)) →
  match foldM (phase1_step m) R ks w with
  | Done R' w' =>
      R' = foldl record_step R ks ∧ disk w' = stage (K ++ ks) <$> d0 ∧
      NoDup (names (disk w')) ∧
      (∀ d, sound d w → sound d w')
  | Raised e _ => e = FileExistsError
  end.
Proof.
  induction ks as [|k ks IH]; intros K R w Hks Hd Hnd.
  { simpl. by rewrite app_nil_r. }
  assert (k ∉ K) as Hk.
  { apply NoDup_app in Hks as (_ & Hks & _). intros Hin.
    apply (Hks k Hin), list_elem_of_here. }
  assert (NoDup ((K ++ [k]) ++ ks)) as Hks' by (by rewrite <- app_assoc).
  simpl. rewrite bind_run.
  pose proof (phase1_step_spec K R k w Hk Hd Hnd) as Hstep.
  specialize (IH (K ++ [k])). rewrite <- app_assoc in IH. simpl in IH.
  destruct (m !! k) as [n'|]; [destruct (first_match k d0) as [[e l]|]|].
  - case_decide.
    + by destruct Hstep as [w' ->].
    + destruct Hstep as (w' & -> & Hd' & Hnd' & Hh').
      specialize (IH (record_step R k) w' Hks Hd' Hnd').
      destruct (foldM _ _ ks w'); [|done].
      destruct IH as (-> & ? & ? & Hh''). do 3 (split; [done|]).
      intros d Hs. by apply Hh'', Hh'.
  - destruct Hstep as (-> & -> & Hs). apply IH; [by rewrite <- ?app_assoc|congruence|done].
  - destruct Hstep as (-> & -> & Hs). apply IH; [by rewrite <- ?app_assoc|congruence|done].
Qed.

(** Phase 1 completes when each temporary name is free at its turn. *)
Lemma phase1_fold_done ks : ∀ K R w,
  NoDup (K ++ ks) → disk w = stage K <$> d0 → NoDup (names (disk w)) →
  (∀ K' k n' e l, k ∉ K' → m !! k = Some n' → first_match k d0 = Some (e, l) →
     temp_name n' l ∉ names (stage K' <$> d0)) →
  ∃ w', foldM (phase1_step m) R ks w = Done (foldl record_step R ks) w' ∧
        disk w' = stage (K ++ ks) <$> d0 ∧ NoDup (names (disk w')) ∧
        (∀ d, sound d w → sound d w').
Proof.
  induction ks as [|k ks IH]; intros K R w Hks Hd Hnd Hfree.
  { simpl. rewrite app_nil_r. by exists w. }
  assert (k ∉ K) as Hk.
  { apply NoDup_app in Hks as (_ & Hks & _). intros Hin.
    apply (Hks k Hin), list_elem_of_here. }
  simpl. rewrite bind_run.
  pose proof (phase1_step_spec K R k w Hk Hd Hnd) as Hstep.
  specialize (IH (K ++ [k])). rewrite <- app_assoc in IH. simpl in IH.
  destruct (m !! k) as [n'|] eqn:Hm;
    [destruct (first_match k d0) as [[e l]|] eqn:Hf|].
  - rewrite decide_False in Hstep by (rewrite Hd; by eapply Hfree).
    destruct Hstep as (w' & -> & Hd' & Hnd' & Hh').
    destruct (IH (record_step R k) w' Hks Hd' Hnd' Hfree) as (w'' & -> & ? & ? & Hh'').
    exists w''. do 3 (split; [done|]). intros d Hs. by apply Hh'', Hh'.
  - destruct Hstep as (-> & -> & Hs). apply IH; [done|congruence|done|done].
  - destruct Hstep as (-> & -> & Hs). apply IH; [done|congruence|done|done].
Qed.

Lemma records_ok_empty : records_ok [] ∅.
Proof. intros n t l. by rewrite lookup_empty. Qed.

Lemma records_ok_mono K K' R :
  (∀ k, k ∈ K → k ∈ K') → records_ok K R → records_ok K' R.
Proof.
  intros HK HR n t l [-> (k & e & Hk & Hm & Hf)]%HR. split; [done|].
  exists k, e. auto.
Qed.

Lemma records_ok_step K R k : records_ok K R → records_ok (K ++ [k]) (record_step R k).
Proof.
  intros HR. assert (records_ok (K ++ [k]) R) as HR'.
  { eapply records_ok_mono; [|done]. intros ??. apply elem_of_app. by left. }
  unfold record_step. destruct (m !! k) as [n'|] eqn:Hm; [|done].
  destruct (first_match k d0) as [[e l]|] eqn:Hf; [|done].
  intros n t l'. destruct (decide (n' = n)) as [-> | Hne].
  - rewrite lookup_insert_eq. intros [= <- <-]. split; [done|].
    exists k, e. repeat split; [|done|done].
    apply elem_of_app. right. by apply list_elem_of_singleton.
  - rewrite lookup_insert_ne by done. apply HR'.
Qed.

Lemma records_ok_foldl ks : ∀ K R,
  records_ok K R → records_ok (K ++ ks) (foldl record_step R ks).
Proof.
  induction ks as [|k ks IH]; intros K R HR; simpl.
  - by rewrite app_nil_r.
  - specialize (IH (K ++ [k]) (record_step R k)).
    rewrite <- app_assoc in IH. apply IH. by apply records_ok_step.
Qed.

(** The name an item chosen by phase 1 bears until phase 2 reaches it. *)
Lemma placed_chosen K R T e n l :
  chosen K e = Some (n, l) → n ∉ T →
  placed K R T e = Entry (temp_name n l) (is_dir e).
Proof.
  intros Hc Hn. unfold placed. rewrite Hc.
  rewrite decide_False; [done|]. by intros [? _].
Qed.

Lemma placed_turn K R T n l x :
  n ∉ T → R !! n = Some (temp_name n l, l) →
  NoDup (names (placed K R T <$> d0)) →
  (∃ e, e ∈ d0 ∧ chosen K e = Some (n, l)) → x ∈ d0 →
  rename_entry (temp_name n l) (final_name n l) (placed K R T x)
  = placed K R (T ++ [n]) x.
Proof.
  intros Hn HR Hnd (e & He & Hc) Hx. unfold rename_entry. case_decide as Hname.
  - assert (x = e) as ->.
    { apply (fmap_inj_on (placed K R T) d0); [done..|].
      by rewrite Hname, (placed_chosen K R T e n l). }
    unfold placed. rewrite Hc. rewrite decide_False by (by intros [? _]).
    rewrite decide_True; [done|]. split; [|done].
    apply elem_of_app. right. by apply list_elem_of_singleton.
  - unfold placed in *. destruct (chosen K x) as [[n'' l'']|]; [|done].
    destruct (decide (n'' ∈ T ∧ R !! n'' = Some (temp_name n'' l'', l''))) as [H|H].
    + rewrite decide_True; [done|]. split; [|apply H].
      apply elem_of_app. left. apply H.
    + rewrite decide_False; [done|]. intros [Hin HR'].
      apply elem_of_app in Hin as [Hin | ->%list_elem_of_singleton]; [tauto|].
      rewrite HR in HR'. injection HR' as _ ->. by apply Hname.
Qed.

Lemma placed_skip K R T n :
  R !! n = None → placed K R (T ++ [n]) <$> d0 = placed K R T <$> d0.
Proof.
  intros HR. apply list_fmap_ext. intros i x _. unfold placed.
  destruct (chosen K x) as [[n'' l'']|]; [|done].
  destruct (decide (n'' ∈ T ∧ R !! n'' = Some (temp_name n'' l'', l''))) as [H|H].
  - rewrite decide_True; [done|]. split; [|apply H].
    apply elem_of_app. left. apply H.
  - rewrite decide_False; [done|]. intros [Hin HR'].
    apply elem_of_app in Hin as [Hin | ->%list_elem_of_singleton]; [tauto|].
    congruence.
Qed.

(** One turn of the loop of phase 2. *)
Lemma phase2_step_spec K R T n w :
  n ∉ T → records_ok K R →
  disk w = placed K R T <$> d0 → NoDup (names (disk w)) →
  match R !! n with
  | Some (t, l) =>
      if decide (final_name n l ∈ names (disk w)) then
        ∃ w', phase2_step R tt n w = Raised FileExistsError w'
      else
        ∃ w', phase2_step R tt n w = Done tt w' ∧
              disk w' = placed K R (T ++ [n]) <$> d0 ∧ NoDup (names (disk w')) ∧
              (∀ d, sound d w → sound d w')
  | None =>
      phase2_step R tt n w = Done tt w ∧
      placed K R (T ++ [n]) <$> d0 = placed K R T <$> d0
  end.
Proof.
  intros Hn HR Hd Hnd. unfold phase2_step.
  destruct (R !! n) as [[t l]|] eqn:Hl; [|by rewrite placed_skip].
  destruct (HR n t l Hl) as (-> & k & e & Hk & Hm & Hf).
  pose proof (first_match_elem _ _ _ _ Hf) as [He Hc].
  assert (chosen K e = Some (n, l)) as Hch by (apply chosen_Some; eauto).
  assert (temp_name n l ∈ names (disk w)) as Hsrc.
  { rewrite Hd. unfold names. rewrite <- list_fmap_compose.
    apply list_elem_of_fmap. exists e. split; [|done]. simpl.
    by rewrite (placed_chosen K R T e n l). }
  rewrite print_bind. case_decide as Hdst.
  - rewrite os_rename_exists; [eauto|done|done|].
    intros Heq. symmetry in Heq. by apply temp_name_not_final in Heq.
  - rewrite os_rename_done by done. eexists. split; [done|]. simpl. split.
    + rewrite Hd, <- list_fmap_compose. apply list_fmap_ext.
      intros i x Hx. simpl. apply placed_turn; try done.
      * by rewrite <- Hd.
      * eauto.
      * by eapply list_elem_of_lookup_2.
    + split; [by apply rename_NoDup|]. intros d [Hh Hchain].
      split; [|by apply chain_snoc]. simpl.
      apply Forall_app. split; [done|]. apply Forall_singleton.
      repeat split; try done. right. by exists n, l.
Qed.

(** Phase 2 through the new ordinals [ns], after the new ordinals [T]. *)
Lemma phase2_fold K R ns : ∀ T w,
  NoDup (T ++ ns) → records_ok K R →
  disk w = placed K R T <$> d0 → NoDup (names (disk w)) →
  match foldM (phase2_step R) tt ns w with
  | Done _ w' =>
      disk w' = placed K R (T ++ ns) <$> d0 ∧ NoDup (names (disk w')) ∧
      (∀ d, sound d w → sound d w')
  | Raised e _ => e = FileExistsError
  end.
Proof.
  induction ns as [|n ns IH]; intros T w Hns HR Hd Hnd.
  { simpl. by rewrite app_nil_r. }
  assert (n ∉ T) as Hn.
  { apply NoDup_app in Hns as (_ & Hns & _). intros Hin.
    apply (Hns n Hin), list_elem_of_here. }
  simpl. rewrite bind_run.
  pose proof (phase2_step_spec K R T n w Hn HR Hd Hnd) as Hstep.
  specialize (IH (T ++ [n])). rewrite <- app_assoc in IH. simpl in IH.
  destruct (R !! n) as [[t l]|].
  - case_decide.
    + by destruct Hstep as [w' ->].
    + destruct Hstep as (w' & -> & Hd' & Hnd' & Hh').
      specialize (IH w' Hns HR Hd' Hnd').
      destruct (foldM _ _ ns w'); [|done].
      destruct IH as (? & ? & Hh''). do 2 (split; [done|]).
      intros d Hs. by apply Hh'', Hh'.
  - destruct Hstep as (-> & Hs). apply IH; [done|done|congruence|done].
Qed.

(** Phase 2 completes when each final name is free at its turn. *)
Lemma phase2_fold_done K R ns : ∀ T w,
  NoDup (T ++ ns) → records_ok K R →
  disk w = placed K R T <$> d0 → NoDup (names (disk w)) →
  (∀ T' n l, n ∉ T' → R !! n = Some (temp_name n l, l) →
     final_name n l ∉ names (placed K R T' <$> d0)) →
  ∃ w', foldM (phase2_step R) tt ns w = Done tt w' ∧
        disk w' = placed K R (T ++ ns) <$> d0 ∧ NoDup (names (disk w')) ∧
        (∀ d, sound d w → sound d w').
Proof.
  induction ns as [|n ns IH]; intros T w Hns HR Hd Hnd Hfree.
  { simpl. rewrite app_nil_r. by exists w. }
  assert (n ∉ T) as Hn.
  { apply NoDup_app in Hns as (_ & Hns & _). intros Hin.
    apply (Hns n Hin), list_elem_of_here. }
  simpl. rewrite bind_run.
  pose proof (phase2_step_spec K R T n w Hn HR Hd Hnd) as Hstep.
  specialize (IH (T ++ [n])). rewrite <- app_assoc in IH. simpl in IH.
  destruct (R !! n) as [[t l]|] eqn:Hl.
  - destruct (HR n t l Hl) as [-> _].
    rewrite decide_False in Hstep by (rewrite Hd; by eapply Hfree).
    destruct Hstep as (w' & -> & Hd' & Hnd' & Hh').
    destruct (IH w' Hns HR Hd' Hnd' Hfree) as (w'' & -> & ? & ? & Hh'').
    exists w''. do 3 (split; [done|]). intros d Hs. by apply Hh'', Hh'.
  - destruct Hstep as (-> & Hs). apply IH; [done|done|congruence|done|done].
Qed.

End two_phases.

(** ** The order of the loops *)

Section key_order.

Context {V : Type}.
Implicit Types d : gmap N V.

#[local] Instance flip_le_total : Total (flip N.le).
Proof. intros x y. unfold flip. lia. Qed.

#[local] Instance flip_le_trans : Transitive (flip N.le).
Proof. intros x y z. unfold flip. lia. Qed.

Lemma sorted_keys_perm d : sorted_keys d ≡ₚ elements (dom d).
Proof. apply merge_sort_Permutation. Qed.

Lemma sorted_keys_reverse_perm d : sorted_keys_reverse d ≡ₚ elements (dom d).
Proof. apply merge_sort_Permutation. Qed.

Lemma sorted_keys_elem d k : k ∈ sorted_keys d ↔ is_Some (d !! k).
Proof. by rewrite sorted_keys_perm, elem_of_elements, elem_of_dom. Qed.

Lemma sorted_keys_reverse_elem d k : k ∈ sorted_keys_reverse d ↔ is_Some (d !! k).
Proof. by rewrite sorted_keys_reverse_perm, elem_of_elements, elem_of_dom. Qed.

Lemma sorted_keys_NoDup d : NoDup (sorted_keys d).
Proof. rewrite sorted_keys_perm. apply NoDup_elements. Qed.

Lemma sorted_keys_reverse_NoDup d : NoDup (sorted_keys_reverse d).
Proof. rewrite sorted_keys_reverse_perm. apply NoDup_elements. Qed.

Lemma strict_of_NoDup (R S : relation N) (l : list N) :
  (∀ x y, R x y → x ≠ y → S x y) →
  StronglySorted R l → NoDup l → StronglySorted S l.
Proof.
  intros HRS. induction 1 as [|x l Hl IH Hx]; [constructor|].
  rewrite NoDup_cons. intros [Hnx Hnd]. constructor; [by apply IH|].
  rewrite Forall_forall in *. intros y Hy. apply HRS; [by apply Hx|].
  by intros ->.
Qed.

(** [sorted(d.keys())] is strictly ascending. *)
Lemma sorted_keys_ascending d : StronglySorted N.lt (sorted_keys d).
Proof.
  apply (strict_of_NoDup N.le); [lia| |apply sorted_keys_NoDup].
  apply StronglySorted_merge_sort; apply _.
Qed.

(** [sorted(d.keys(), reverse=True)] is strictly descending. *)
Lemma sorted_keys_descending d : StronglySorted (flip N.lt) (sorted_keys_reverse d).
Proof.
  apply (strict_of_NoDup (flip N.le)); [unfold flip; lia| |apply sorted_keys_reverse_NoDup].
  apply StronglySorted_merge_sort; apply _.
Qed.

Lemma sorted_keys_empty : sorted_keys (∅ : gmap N V) = [].
Proof. unfold sorted_keys. by rewrite dom_empty_L, elements_empty. Qed.

End key_order.

(** ** A whole run *)

Section runs.

Variable m : gmap N N.
Variable d0 : list entry.
Hypothesis d0_NoDup : NoDup (names d0).

(** The record phase 1 leaves when it completes. *)
Definition records_of : records :=
  foldl (record_step m d0) ∅ (sorted_keys_reverse m).

(** The item of the initial listing after a run that completes. *)
Definition renumbered (e : entry) : entry :=
  placed m d0 (sorted_keys_reverse m) records_of (sorted_keys records_of) e.

Lemma run_unfold :
  run m d0 =
  match foldM (phase1_step m) ∅ (sorted_keys_reverse m)
          (World d0 ["Phase 1: Renaming to temporary names..."] []) with
  | Done R w1 =>
      match foldM (phase2_step R) tt (sorted_keys R)
              (World (disk w1)
                 (stdout w1 ++ [nl +:+ "Phase 2: Renaming to final names..."])
                 (history w1)) with
      | Done _ w2 =>
          Done R (World (disk w2)
                    (stdout w2 ++ [nl +:+ "✅ Folder renumbering complete!"])
                    (history w2))
      | Raised e w2 => Raised e w2
      end
  | Raised e w1 => Raised e w1
  end.
Proof.
  unfold run, main, phase1, phase2. rewrite bind_run, print_bind.
  destruct (foldM (phase1_step m) _ _ _) as [R w1|]; [|done].
  rewrite bind_run, print_bind.
  by destruct (foldM (phase2_step R) _ _ _).
Qed.

Lemma records_of_ok : records_ok m d0 (sorted_keys_reverse m) records_of.
Proof. apply (records_ok_foldl m d0 _ []), records_ok_empty. Qed.

(** A run either completes, with every item of the initial listing where
    [renumbered] puts it, or stops at a [rename] onto an occupied name. *)
Theorem run_spec :
  match run m d0 with
  | Done R w =>
      R = records_of ∧ disk w = renumbered <$> d0 ∧
      NoDup (names (disk w)) ∧ sound d0 w
  | Raised e _ => e = FileExistsError
  end.
Proof.
  rewrite run_unfold.
  pose proof (phase1_fold m d0 d0_NoDup (sorted_keys_reverse m) [] ∅
    (World d0 ["Phase 1: Renaming to temporary names..."] [])) as H1.
  simpl in H1. rewrite stage_nil in H1.
  specialize (H1 (sorted_keys_reverse_NoDup m) eq_refl d0_NoDup).
  destruct (foldM (phase1_step m) _ _ _) as [R w1|]; [|done].
  destruct H1 as (-> & Hd1 & Hnd1 & Hh1).
  fold records_of in *.
  pose proof (phase2_fold m d0 (sorted_keys_reverse m) records_of
    (sorted_keys records_of) []
    (World (disk w1) (stdout w1 ++ [nl +:+ "Phase 2: Renaming to final names..."])
       (history w1))) as H2.
  simpl in H2. rewrite placed_nil in H2.
  specialize (H2 (sorted_keys_NoDup _) records_of_ok Hd1 Hnd1).
  destruct (foldM (phase2_step _) _ _ _) as [[] w2|]; [|done].
  destruct H2 as (Hd2 & Hnd2 & Hh2). simpl. do 3 (split; [done|]).
  apply (Hh2 d0), (Hh1 d0). by split; [constructor|].
Qed.

End runs.

(** ** The record of temporary names *)

Section record_facts.

Variable m : gmap N N.
Variable d0 : list entry.

(** A record survives the turns that would write it again as it is. *)
Lemma foldl_record_keep ks : ∀ (R : records) n v,
  R !! n = Some v →
  (∀ k e l, k ∈ ks → m !! k = Some n → first_match k d0 = Some (e, l) →
     v = (temp_name n l, l)) →
  foldl (record_step m d0) R ks !! n = Some v.
Proof.
  induction ks as [|k0 ks IH]; intros R n v HR Hsame; [done|].
  simpl. apply IH.
  - unfold record_step. destruct (m !! k0) as [n0|] eqn:Hm; [|done].
    destruct (first_match k0 d0) as [[e l]|] eqn:Hf; [|done].
    destruct (decide (n0 = n)) as [-> | Hne].
    + rewrite lookup_insert_eq. f_equal. symmetry.
      eapply Hsame; [apply list_elem_of_here|done..].
    + by rewrite lookup_insert_ne.
  - intros k e l Hk. apply Hsame. by apply list_elem_of_further.
Qed.

(** Under an injective map no record is overwritten. *)
Lemma foldl_record_lookup ks : ∀ (R : records) k n e l,
  injective m → k ∈ ks → m !! k = Some n → first_match k d0 = Some (e, l) →
  foldl (record_step m d0) R ks !! n = Some (temp_name n l, l).
Proof.
  induction ks as [|k0 ks IH]; intros R k n e l Hinj Hk Hm Hf.
  { by apply elem_of_nil in Hk. }
  simpl. apply elem_of_cons in Hk as [-> | Hk]; [|by eapply IH].
  apply foldl_record_keep.
  - unfold record_step. rewrite Hm, Hf. apply lookup_insert_eq.
  - intros k' e' l' _ Hm' Hf'. assert (k' = k0) as -> by eauto. congruence.
Qed.

End record_facts.

Lemma fmt02_length (n : N) : (2 ≤ String.length (fmt02 n))%nat.
Proof.
  unfold fmt02. case_match eqn:E.
  - assert (NilZero.string_of_uint (N.to_uint n) ≠ "") as Hne.
    { destruct (N.to_uint n) as [|d|d|d|d|d|d|d|d|d|d]; by simpl. }
    destruct (NilZero.string_of_uint (N.to_uint n)); [done|]. simpl. lia.
  - by apply Nat.ltb_ge in E.
Qed.

(** ** The claims *)

(** C1. For every renumbering map that is a permutation of its key set (old
    and new ordinals may overlap) and every base directory whose matching
    children have pairwise distinct ordinals, after a run that completes,
    every directory that was there under an old ordinal [k] that is a key of
    the map is there under the new ordinal the map gives to [k], printed on
    at least two digits, with the label it had. *)
Theorem C1_directory_under_new_ordinal
    (m : gmap N N) (d0 : list entry) (R : records) (w : world)
    (e : entry) (k n' : N) (l : string) :
  permutation m → NoDup (names d0) → distinct_ordinals d0 →
  run m d0 = Done R w →
  e ∈ d0 → candidate e = Some (k, l) → m !! k = Some n' →
  Entry (fmt02 n' +:+ ". " +:+ l) true ∈ disk w ∧
  int (fmt02 n') = n' ∧ (2 ≤ String.length (fmt02 n'))%nat ∧
  candidate (Entry (fmt02 n' +:+ ". " +:+ l) true) = Some (n', l).
Proof.
  intros [Hinj _] Hnd Hdist Hrun He Hc Hm.
  pose proof (run_spec m d0 Hnd) as Hspec. rewrite Hrun in Hspec.
  destruct Hspec as (-> & Hd & _ & _).
  assert (k ∈ sorted_keys_reverse m) as Hk by (by apply sorted_keys_reverse_elem).
  pose proof (first_match_distinct d0 e k l Hdist He Hc) as Hf.
  pose proof (foldl_record_lookup m d0 _ ∅ k n' e l Hinj Hk Hm Hf) as HR.
  fold (records_of m d0) in HR.
  split; [|split; [apply int_fmt02|split; [apply fmt02_length|]]].
  - rewrite Hd. apply list_elem_of_fmap. exists e. split; [|done].
    unfold renumbered, placed.
    assert (chosen m d0 (sorted_keys_reverse m) e = Some (n', l)) as ->.
    { apply chosen_Some. by exists k. }
    rewrite decide_True.
    + by rewrite (candidate_is_dir e k l).
    + split; [|done]. apply sorted_keys_elem. by rewrite HR.
  - apply (candidate_final n' l true). by eapply candidate_valid.
Qed.

(** Decidable tests for the hypotheses on concrete maps and listings. *)
Lemma permutation_check (m : gmap N N) :
  NoDup ((map_to_list m).*2) →
  Forall (λ n, is_Some (m !! n)) ((map_to_list m).*2) →
  permutation m.
Proof.
  intros Hnd Hcl. split.
  - intros k1 k2 n H1 H2.
    apply elem_of_map_to_list in H1, H2.
    apply list_elem_of_lookup in H1 as [i Hi], H2 as [j Hj].
    assert (i = j) as ->; [|congruence].
    eapply NoDup_lookup; [exact Hnd|..]; rewrite list_lookup_fmap.
    + by rewrite Hi.
    + by rewrite Hj.
  - intros k n Hk. apply elem_of_dom. rewrite Forall_forall in Hcl. apply Hcl.
    apply list_elem_of_fmap. exists (k, n). split; [done|].
    by apply elem_of_map_to_list.
Qed.

Lemma distinct_ordinals_check (d : list entry) :
  NoDup (omap (λ e, fst <$> candidate e) d) → distinct_ordinals d.
Proof.
  induction d as [|x d IH]; intros Hnd e1 e2 n l1 l2 H1 H2 Hc1 Hc2.
  { by apply elem_of_nil in H1. }
  assert (∀ e l, e ∈ d → candidate e = Some (n, l) →
            n ∈ omap (λ e, fst <$> candidate e) d) as Hin.
  { intros e l He Hc. apply list_elem_of_omap. exists e. split; [done|]. by rewrite Hc. }
  simpl in Hnd.
  apply elem_of_cons in H1 as [-> | H1], H2 as [-> | H2]; [done|..].
  - rewrite Hc1 in Hnd. simpl in Hnd. apply NoDup_cons in Hnd as [Hn _].
    destruct Hn. by eapply Hin.
  - rewrite Hc2 in Hnd. simpl in Hnd. apply NoDup_cons in Hnd as [Hn _].
    destruct Hn. by eapply Hin.
  - eapply IH; [|done..]. destruct (candidate x) as [[??]|]; simpl in Hnd; [|done].
    by apply NoDup_cons in Hnd as [_ ?].
Qed.

(** A swap of 8 and 10, the smallest map whose old and new ordinals overlap. *)
Definition swap_8_10 : gmap N N := list_to_map [(8, 10); (10, 8)].

Lemma C1_witness :
  ∃ R w, run swap_8_10 [dir "08. Loops"; dir "10. Arrays"] = Done R w ∧
         Entry "10. Loops" true ∈ disk w.
Proof.
  assert (∃ R w, run swap_8_10 [dir "08. Loops"; dir "10. Arrays"] = Done R w)
    as (R & w & Hrun).
  { eexists _, _. vm_compute. reflexivity. }
  exists R, w. split; [exact Hrun|].
  assert (candidate (dir "08. Loops") = Some (8, "Loops")) as Hc by (by vm_compute).
  assert (swap_8_10 !! 8 = Some 10) as Hm by (by vm_compute).
  refine (proj1 (C1_directory_under_new_ordinal swap_8_10
    [dir "08. Loops"; dir "10. Arrays"] R w (dir "08. Loops") 8 10 "Loops"
    _ _ _ Hrun _ Hc Hm)).
  - apply permutation_check; vm_compute; [|repeat constructor; by eexists].
    apply (bool_decide_unpack _). by vm_compute.
  - apply (bool_decide_unpack _). by vm_compute.
  - apply distinct_ordinals_check. apply (bool_decide_unpack _). by vm_compute.
  - apply list_elem_of_here.
Defined.

(** The map of the scenario. *)
Definition scenario_map : gmap N N := list_to_map [(8, 10); (9, 11); (10, 12)].

Definition scenario_dirs : list entry :=
  [dir "08. Loops"; dir "09. Conditionals"; dir "10. Arrays"].

(** C4. From exactly the directories [08. Loops], [09. Conditionals] and
    [10. Arrays], in whatever order they are listed, and the map
    [{8:10, 9:11, 10:12}], a run goes through the keys 10, 9, 8 in phase 1,
    completes, and leaves exactly [10. Loops], [11. Conditionals] and
    [12. Arrays]; no rename targets an occupied name, although the new
    ordinal of 8 is the ordinal of the directory [10. Arrays]. *)
Theorem C4_scenario (d : list entry) :
  d ≡ₚ scenario_dirs →
  ∃ R w, run scenario_map d = Done R w ∧
    sorted_keys_reverse scenario_map = [10; 9; 8] ∧
    (λ c, (call_src c, call_dst c)) <$> history w =
      [("10. Arrays", "TEMP_12. Arrays");
       ("09. Conditionals", "TEMP_11. Conditionals");
       ("08. Loops", "TEMP_10. Loops");
       ("TEMP_10. Loops", "10. Loops");
       ("TEMP_11. Conditionals", "11. Conditionals");
       ("TEMP_12. Arrays", "12. Arrays")] ∧
    Forall (λ c, call_dst c ∉ names (call_listing c)) (history w) ∧
    disk w ≡ₚ [dir "10. Loops"; dir "11. Conditionals"; dir "12. Arrays"].
Proof.
  intros Hd. symmetry in Hd. apply permutations_Permutation in Hd.
  assert (permutations scenario_dirs =
    [[dir "08. Loops"; dir "09. Conditionals"; dir "10. Arrays"];
     [dir "09. Conditionals"; dir "08. Loops"; dir "10. Arrays"];
     [dir "09. Conditionals"; dir "10. Arrays"; dir "08. Loops"];
     [dir "08. Loops"; dir "10. Arrays"; dir "09. Conditionals"];
     [dir "10. Arrays"; dir "08. Loops"; dir "09. Conditionals"];
     [dir "10. Arrays"; dir "09. Conditionals"; dir "08. Loops"]]) as E
    by (by vm_compute).
  rewrite E in Hd. clear E.
  repeat (apply elem_of_cons in Hd as [-> | Hd]);
    [..|by apply elem_of_nil in Hd];
    (eexists _, _; split; [vm_compute; reflexivity|];
     split; [by vm_compute|]; split; [by vm_compute|];
     split; apply (bool_decide_unpack _); by vm_compute).
Qed.

Lemma C4_witness :
  [dir "10. Arrays"; dir "08. Loops"; dir "09. Conditionals"] ≡ₚ scenario_dirs ∧
  ∃ R w, run scenario_map [dir "10. Arrays"; dir "08. Loops"; dir "09. Conditionals"]
         = Done R w ∧
    sorted_keys_reverse scenario_map = [10; 9; 8] ∧
    (λ c, (call_src c, call_dst c)) <$> history w =
      [("10. Arrays", "TEMP_12. Arrays");
       ("09. Conditionals", "TEMP_11. Conditionals");
       ("08. Loops", "TEMP_10. Loops");
       ("TEMP_10. Loops", "10. Loops");
       ("TEMP_11. Conditionals", "11. Conditionals");
       ("TEMP_12. Arrays", "12. Arrays")] ∧
    Forall (λ c, call_dst c ∉ names (call_listing c)) (history w) ∧
    disk w ≡ₚ [dir "10. Loops"; dir "11. Conditionals"; dir "12. Arrays"].
Proof.
  assert ([dir "10. Arrays"; dir "08. Loops"; dir "09. Conditionals"]
          ≡ₚ scenario_dirs) as H.
  { apply (bool_decide_unpack _). by vm_compute. }
  split; [exact H|]. exact (C4_scenario _ H).
Defined.

Section steps.

Lemma candidate_spec (item : entry) (n : N) (l : string) :
  candidate item = Some (n, l) ↔
  is_dir item = true ∧ ∃ g1, Re.re_match (name item) = Some (g1, l) ∧ int g1 = n.
Proof.
  unfold candidate. destruct (is_dir item).
  - destruct (Re.re_match (name item)) as [[g1 g2]|]; split.
    + intros [= <- <-]. eauto.
    + intros (_ & g & [= <- <-] & <-). done.
    + done.
    + by intros (_ & g & ? & _).
  - split; [done|]. by intros [? _].
Qed.

Lemma first_match_app (k : N) (pre post : list entry) (item : entry) (l : string) :
  (∀ x l', x ∈ pre → candidate x ≠ Some (k, l')) →
  candidate item = Some (k, l) →
  first_match k (pre ++ item :: post) = Some (item, l).
Proof.
  intros Hpre Hc. induction pre as [|x pre IH]; simpl.
  - by rewrite Hc, N.eqb_refl.
  - rewrite IH by (intros; apply Hpre; by apply list_elem_of_further).
    destruct (candidate x) as [[n lx]|] eqn:Hx; [|done].
    destruct (n =? k) eqn:Hn; [|done]. apply N.eqb_eq in Hn as ->.
    by destruct (Hpre x lx (list_elem_of_here _ _)).
Qed.

Lemma rename_entry_other (src dst : string) (l : list entry) :
  src ∉ names l → rename_entry src dst <$> l = l.
Proof.
  intros Hl. rewrite <- (list_fmap_id l) at 2. apply list_fmap_ext.
  intros i x Hx. unfold rename_entry. rewrite decide_False; [done|].
  intros <-. apply Hl. apply list_elem_of_fmap. exists x. split; [done|].
  by eapply list_elem_of_lookup_2.
Qed.

Lemma rename_entry_middle (src dst : string) (pre post : list entry) (item : entry) :
  NoDup (names (pre ++ item :: post)) → name item = src →
  rename_entry src dst <$> (pre ++ item :: post)
  = pre ++ Entry dst (is_dir item) :: post.
Proof.
  unfold names. rewrite fmap_app, fmap_cons.
  intros (_ & Hpre & Hmid)%NoDup_app <-.
  rewrite fmap_app, fmap_cons. rewrite !rename_entry_other.
  - unfold rename_entry. by rewrite decide_True.
  - apply NoDup_cons in Hmid. apply Hmid.
  - intros Hin. apply (Hpre _ Hin), list_elem_of_here.
Qed.

Lemma os_rename_history (src dst : string) (w : world) :
  history (final_world (os_rename src dst w))
  = history w ++ [Call (disk w) src dst].
Proof. unfold os_rename. by repeat case_decide. Qed.

End steps.

(** C9. For an old ordinal that is a key of the map and that no child
    directory matches, the turn of phase 1 records nothing, raises no error,
    performs no rename, prints nothing, and the loop goes on with the
    remaining keys. *)
Theorem C9_silent_skip
    (m : gmap N N) (R : records) (old_num new_num : N) (ks : list N) (w : world) :
  m !! old_num = Some new_num →
  (∀ item g1 g2, item ∈ disk w → is_dir item = true →
     Re.re_match (name item) = Some (g1, g2) → int g1 ≠ old_num) →
  phase1_step m R old_num w = Done R w ∧
  foldM (phase1_step m) R (old_num :: ks) w = foldM (phase1_step m) R ks w.
Proof.
  intros Hm Hnone.
  assert (phase1_step m R old_num w = Done R w) as Hstep.
  { unfold phase1_step. rewrite Hm. unfold iterdir. rewrite bind_run, scan_first_match.
    assert (first_match old_num (disk w) = None) as ->; [|done].
    apply first_match_None. intros x l Hx (Hdir & g1 & Hre & Hint)%candidate_spec.
    by apply (Hnone x g1 l). }
  split; [done|]. simpl. by rewrite bind_run, Hstep.
Qed.

Lemma C9_witness :
  phase1_step scenario_map ∅ 9 (World [dir "08. Loops"; dir "10. Arrays"] [] [])
  = Done ∅ (World [dir "08. Loops"; dir "10. Arrays"] [] []) ∧
  foldM (phase1_step scenario_map) ∅ [9; 8]
    (World [dir "08. Loops"; dir "10. Arrays"] [] [])
  = foldM (phase1_step scenario_map) ∅ [8]
    (World [dir "08. Loops"; dir "10. Arrays"] [] []).
Proof.
  apply (C9_silent_skip scenario_map ∅ 9 11); [reflexivity|].
  intros item g1 g2 Hin Hdir Hre. simpl in Hin.
  apply elem_of_cons in Hin as [-> | Hin].
  { vm_compute in Hre. injection Hre as <- _. by vm_compute. }
  apply elem_of_cons in Hin as [-> | Hin].
  { vm_compute in Hre. injection Hre as <- _. by vm_compute. }
  by apply elem_of_nil in Hin.
Defined.



(** The rename phase 2 has to issue for the new ordinal [n]. *)
Definition planned_rename (R : records) (n : N) : string * string :=
  match R !! n with
  | Some (temp, rest) => (temp, final_name n rest)
  | None => ("", "")
  end.

Definition call_pair (c : rename_call) : string * string :=
  (call_src c, call_dst c).

Lemma foldM_cons {A B} (f : B → A → M B) (b : B) (x : A) (l : list A) (w : world) :
  foldM f b (x :: l) w =
  match f b x w with
  | Done b' w' => foldM f b' l w'
  | Raised e w' => Raised e w'
  end.
Proof. done. Qed.

Lemma phase2_step_run (R : records) (n : N) (temp rest : string) (w : world) :
  R !! n = Some (temp, rest) →
  phase2_step R tt n w =
  os_rename temp (final_name n rest)
    (World (disk w)
       (stdout w ++ ["  " +:+ temp +:+ " -> " +:+ final_name n rest])
       (history w)).
Proof. intros HR. unfold phase2_step. by rewrite HR, print_bind. Qed.

(** The renames of phase 2 are the planned ones, in the order of the loop,
    up to the one that fails if one does. *)
Lemma phase2_calls (R : records) (ns : list N) : ∀ w,
  (∀ n, n ∈ ns → is_Some (R !! n)) →
  ∃ ns', ns' `prefix_of` ns ∧
    call_pair <$> history (final_world (foldM (phase2_step R) tt ns w))
    = (call_pair <$> history w) ++ (planned_rename R <$> ns') ∧
    (∀ u w', foldM (phase2_step R) tt ns w = Done u w' → ns' = ns).
Proof.
  induction ns as [|n ns IH]; intros w Hns.
  { exists []. simpl. by rewrite app_nil_r. }
  destruct (Hns n (list_elem_of_here _ _)) as [[t l] Hn].
  rewrite foldM_cons, (phase2_step_run R n t l w Hn).
  set (w1 := World (disk w) _ (history w)).
  pose proof (os_rename_history t (final_name n l) w1) as Hh.
  destruct (os_rename t (final_name n l) w1) as [[] w2|err w2]; simpl in Hh.
  - destruct (IH w2) as (ns' & Hpre & Hcalls & Hdone).
    { intros; apply Hns. by apply list_elem_of_further. }
    exists (n :: ns'). split; [by apply prefix_cons|]. split.
    + rewrite Hcalls, Hh, fmap_app, <- app_assoc. simpl.
      unfold planned_rename at 2. by rewrite Hn.
    + intros u w' Hrun. f_equal. by eapply Hdone.
  - exists [n]. split; [apply prefix_cons, prefix_nil|]. split; [|done].
    simpl. rewrite Hh, fmap_app. simpl. unfold planned_rename. by rewrite Hn.
Qed.

(** C6. Phase 2 goes through the records in strictly ascending order of new
    ordinal, and renames each recorded temporary name to the final name: the
    new ordinal on at least two digits, zero-padded, a period, a space, and
    the recorded label. *)
Theorem C6_phase2_turn (R : records) (n : N) (temp rest : string) (w : world) :
  R !! n = Some (temp, rest) →
  temp ∈ names (disk w) →
  final_name n rest ∉ names (disk w) →
  StronglySorted N.lt (sorted_keys R) ∧
  (∀ k, k ∈ sorted_keys R ↔ is_Some (R !! k)) ∧
  phase2 R = (print (nl +:+ "Phase 2: Renaming to final names...");;
              foldM (phase2_step R) tt (sorted_keys R)) ∧
  final_name n rest = fmt02 n +:+ ". " +:+ rest ∧
  int (fmt02 n) = n ∧ (2 ≤ String.length (fmt02 n))%nat ∧
  phase2_step R tt n w =
    Done tt
      (World (rename_entry temp (final_name n rest) <$> disk w)
         (stdout w ++ ["  " +:+ temp +:+ " -> " +:+ final_name n rest])
         (history w ++ [Call (disk w) temp (final_name n rest)])) ∧
  ∃ ns, ns `prefix_of` sorted_keys R ∧
    call_pair <$> history (final_world (phase2 R w))
    = (call_pair <$> history w) ++ (planned_rename R <$> ns) ∧
    (∀ u w', phase2 R w = Done u w' → ns = sorted_keys R).
Proof.
  intros HR Hsrc Hdst.
  split; [apply sorted_keys_ascending|]. split; [apply sorted_keys_elem|].
  split; [done|]. split; [done|]. split; [apply int_fmt02|].
  split; [apply fmt02_length|]. split.
  - unfold phase2_step. rewrite HR, print_bind. by rewrite os_rename_done.
  - set (w1 := World (disk w)
      (stdout w ++ [nl +:+ "Phase 2: Renaming to final names..."]) (history w)).
    assert (phase2 R w = foldM (phase2_step R) tt (sorted_keys R) w1) as -> by done.
    destruct (phase2_calls R (sorted_keys R) w1) as (ns & Hpre & Hcalls & Hdone).
    { intros k. apply sorted_keys_elem. }
    by exists ns.
Qed.

Lemma C6_witness :
  phase2_step {[10 := ("TEMP_10. Loops", "Loops")]} tt 10
    (World [dir "TEMP_10. Loops"; dir "09. Conditionals"] [] [])
  = Done tt
      (World [dir "10. Loops"; dir "09. Conditionals"]
         ["  TEMP_10. Loops -> 10. Loops"]
         [Call [dir "TEMP_10. Loops"; dir "09. Conditionals"]
            "TEMP_10. Loops" "10. Loops"]).
Proof.
  refine (proj1 (proj2 (proj2 (proj2 (proj2 (proj2 (proj2
    (C6_phase2_turn {[10 := ("TEMP_10. Loops", "Loops")]} 10
       "TEMP_10. Loops" "Loops"
       (World [dir "TEMP_10. Loops"; dir "09. Conditionals"] [] [])
       eq_refl _ _)))))))).
  - apply (bool_decide_unpack _). by vm_compute.
  - apply (bool_decide_unpack _). by vm_compute.
Defined.

(** ** What a run leaves alone *)

Section untouched.

Variable m : gmap N N.
Variable e : entry.
Variable i : nat.
Hypothesis e_not_key : ∀ k l, candidate e = Some (k, l) → m !! k = None.

(** The item [e] is still at place [i], and no call has renamed it. *)
Definition kept (w : world) : Prop :=
  disk w !! i = Some e ∧ NoDup (names (disk w)) ∧
  Forall (λ c, call_src c ≠ name e) (history w).

(** No record bears the name of [e] as its temporary name. *)
Definition records_off (R : records) : Prop :=
  ∀ n t l, R !! n = Some (t, l) → t ≠ name e.

Lemma os_rename_kept (src dst : string) (w : world) :
  kept w → src ≠ name e →
  kept (final_world (os_rename src dst w)) ∧
  (∀ u w', os_rename src dst w = Done u w' → dst ≠ name e).
Proof.
  intros (Hi & Hnd & Hh) Hsrc.
  assert (Forall (λ c, call_src c ≠ name e)
            (history w ++ [Call (disk w) src dst])) as Hh'.
  { apply Forall_app. split; [done|]. by apply Forall_singleton. }
  assert (name e ∈ names (disk w)) as He.
  { apply list_elem_of_fmap. exists e. split; [done|].
    by eapply list_elem_of_lookup_2. }
  unfold os_rename. repeat case_decide; simpl; (split; [|intros u w' Hrun]);
    try done; try congruence.
  unfold kept. simpl. repeat split; [|by apply rename_NoDup|done].
  rewrite list_lookup_fmap, Hi. simpl. unfold rename_entry.
  by rewrite decide_False.
Qed.

Lemma phase1_step_kept (R : records) (k : N) (w : world) :
  kept w → records_off R →
  match phase1_step m R k w with
  | Done R' w' => kept w' ∧ records_off R'
  | Raised _ w' => kept w'
  end.
Proof.
  intros Hw HR. unfold phase1_step. destruct (m !! k) as [n'|] eqn:Hm; [|done].
  unfold iterdir. rewrite bind_run, scan_first_match.
  destruct (first_match k (disk w)) as [[item l]|] eqn:Hf; [|done].
  apply first_match_elem in Hf as [Hin Hc].
  assert (name item ≠ name e) as Hsrc.
  { intros Heq. destruct Hw as (Hi & Hnd & _).
    assert (item = e) as ->.
    { apply (names_inj (disk w)); [done..| |done]. by eapply list_elem_of_lookup_2. }
    specialize (e_not_key k l Hc). congruence. }
  rewrite print_bind, bind_run.
  match goal with |- context [os_rename ?s ?d ?w1] =>
    destruct (os_rename_kept s d w1 Hw Hsrc) as [Hk Hdst] end.
  destruct (os_rename _ _ _) as [[] w'|err w']; [|done].
  split; [done|]. intros n t l'. destruct (decide (n' = n)) as [-> | Hne].
  - rewrite lookup_insert_eq. intros [= <- <-]. by eapply Hdst.
  - rewrite lookup_insert_ne by done. apply HR.
Qed.

Lemma phase2_step_kept (R : records) (n : N) (w : world) :
  records_off R → kept w → kept (final_world (phase2_step R tt n w)).
Proof.
  intros HR Hw. unfold phase2_step.
  destruct (R !! n) as [[t l]|] eqn:Hn; [|done].
  rewrite print_bind.
  match goal with |- context [os_rename ?s ?d ?w1] =>
    apply (os_rename_kept s d w1 Hw) end.
  by eapply HR.
Qed.

(** Whatever the outcome of the run, [e] is where it was, under its name,
    and no [rename] was called on it; no record points at it. *)
Lemma run_kept (d0 : list entry) :
  NoDup (names d0) → d0 !! i = Some e →
  kept (final_world (run m d0)) ∧
  ∀ R w, run m d0 = Done R w → records_off R.
Proof.
  intros Hnd Hi. rewrite run_unfold.
  pose proof (foldM_invariant (λ R w, kept w ∧ records_off R) kept
    (phase1_step m) (sorted_keys_reverse m) ∅
    (World d0 ["Phase 1: Renaming to temporary names..."] [])) as H1.
  destruct (foldM (phase1_step m) _ _ _) as [R w1|err w1]; simpl.
  2: { split; [|done]. apply H1.
       - intros b w x _ [Hw Hb]. by apply phase1_step_kept.
       - split; [by repeat split|]. intros n t l. by rewrite lookup_empty. }
  destruct H1 as [Hw1 HR1].
  { intros b w x _ [Hw Hb]. by apply phase1_step_kept. }
  { split; [by repeat split|]. intros n t l. by rewrite lookup_empty. }
  pose proof (foldM_invariant (λ _ w, kept w) kept
    (phase2_step R) (sorted_keys R) tt
    (World (disk w1) (stdout w1 ++ [nl +:+ "Phase 2: Renaming to final names..."])
       (history w1))) as H2.
  destruct (foldM (phase2_step R) _ _ _) as [[] w2|err w2]; simpl.
  - split; [|by intros ?? [= <- _]]. apply H2; [|done].
    intros [] w x _ Hw. pose proof (phase2_step_kept R x w HR1 Hw) as Hk.
    by destruct (phase2_step R tt x w).
  - split; [|done]. apply H2; [|done].
    intros [] w x _ Hw. pose proof (phase2_step_kept R x w HR1 Hw) as Hk.
    by destruct (phase2_step R tt x w).
Qed.

End untouched.



(** The pattern in the words of the specification: one or more digits, a
    period, exactly one space, then a non-empty arbitrary text. *)
Definition spec_pattern (s : string) : Prop :=
  ∃ digits text, s = digits +:+ ". " +:+ text ∧
    digits ≠ "" ∧ all_chars Re.is_digit digits = true ∧ text ≠ "".

Definition tab : string := String (ascii_of_N 9) "".




(** ** When a run completes *)

Section completion.

Variable m : gmap N N.
Variable d0 : list entry.
Hypothesis d0_NoDup : NoDup (names d0).

(** A run completes when every temporary name and every final name is free
    at its turn. *)
Lemma run_done :
  (∀ K' k n' e l, k ∉ K' → m !! k = Some n' → first_match k d0 = Some (e, l) →
     temp_name n' l ∉ names (stage m d0 K' <$> d0)) →
  (∀ T' n l, n ∉ T' → records_of m d0 !! n = Some (temp_name n l, l) →
     final_name n l ∉
       names (placed m d0 (sorted_keys_reverse m) (records_of m d0) T' <$> d0)) →
  ∃ w, run m d0 = Done (records_of m d0) w ∧
       disk w = renumbered m d0 <$> d0 ∧
       NoDup (names (disk w)) ∧ sound d0 w.
Proof.
  intros Hfree1 Hfree2. rewrite run_unfold.
  destruct (phase1_fold_done m d0 d0_NoDup (sorted_keys_reverse m) [] ∅
    (World d0 ["Phase 1: Renaming to temporary names..."] []))
    as (w1 & -> & Hd1 & Hnd1 & Hh1).
  { apply sorted_keys_reverse_NoDup. }
  { simpl. by rewrite stage_nil. }
  { done. }
  { done. }
  fold (records_of m d0). simpl in Hd1.
  destruct (phase2_fold_done m d0 (sorted_keys_reverse m) (records_of m d0)
    (sorted_keys (records_of m d0)) []
    (World (disk w1) (stdout w1 ++ [nl +:+ "Phase 2: Renaming to final names..."])
       (history w1))) as (w2 & -> & Hd2 & Hnd2 & Hh2).
  { apply sorted_keys_NoDup. }
  { apply records_of_ok. }
  { simpl. by rewrite placed_nil. }
  { done. }
  { done. }
  eexists. split; [done|]. simpl. do 2 (split; [done|]).
  apply (Hh2 d0), (Hh1 d0). by split; [constructor|].
Qed.

Hypothesis m_permutation : permutation m.
Hypothesis d0_distinct : distinct_ordinals d0.
Hypothesis d0_no_marker : ∀ x, x ∈ d0 → has_marker (name x) = false.
Hypothesis d0_dirs : ∀ x, x ∈ d0 → Re.re_match (name x) ≠ None → is_dir x = true.

Lemma temp_name_free K' k n' e l :
  k ∉ K' → m !! k = Some n' → first_match k d0 = Some (e, l) →
  temp_name n' l ∉ names (stage m d0 K' <$> d0).
Proof.
  intros Hk Hm Hf. unfold names. rewrite <- list_fmap_compose.
  intros (x & Hname & Hx)%list_elem_of_fmap. simpl in Hname.
  unfold stage in Hname. destruct (chosen m d0 K' x) as [[n'' l'']|] eqn:E.
  - simpl in Hname. apply temp_name_inj in Hname as [<- <-].
    apply chosen_Some in E as (k'' & _ & Hin & _ & Hm'').
    destruct m_permutation as [Hinj _].
    assert (k'' = k) as -> by eauto. done.
  - specialize (d0_no_marker x Hx).
    by rewrite <- Hname, temp_name_marker in d0_no_marker.
Qed.

Lemma final_name_free T' n l :
  n ∉ T' → records_of m d0 !! n = Some (temp_name n l, l) →
  final_name n l ∉
    names (placed m d0 (sorted_keys_reverse m) (records_of m d0) T' <$> d0).
Proof.
  intros Hn HR. unfold names. rewrite <- list_fmap_compose.
  intros (x & Hname & Hx)%list_elem_of_fmap. simpl in Hname.
  unfold placed in Hname.
  destruct (chosen m d0 (sorted_keys_reverse m) x) as [[n'' l'']|] eqn:E.
  - case_decide as Hdec; simpl in Hname.
    + apply final_name_inj in Hname as [<- <-]. by destruct Hdec.
    + symmetry in Hname. by apply temp_name_not_final in Hname.
  - destruct (records_of_ok m d0 n _ _ HR) as (_ & k & e & Hk & Hm & Hf).
    apply first_match_elem in Hf as [_ Hc].
    pose proof (candidate_valid e k l Hc) as Hl.
    pose proof (re_match_final n l Hl) as Hre. rewrite Hname in Hre.
    assert (is_dir x = true) as Hdir by (apply d0_dirs; [done|congruence]).
    assert (candidate x = Some (n, l)) as Hcx.
    { apply candidate_spec. split; [done|]. exists (fmt02 n).
      split; [done|apply int_fmt02]. }
    destruct m_permutation as [_ Hclosed].
    pose proof (Hclosed k n Hm) as [n2 Hn2]%elem_of_dom.
    assert (chosen m d0 (sorted_keys_reverse m) x = Some (n2, l)) as E'.
    { apply chosen_Some. exists n. repeat split; [done| |by apply first_match_distinct|done].
      apply sorted_keys_reverse_elem. by rewrite Hn2. }
    congruence.
Qed.

Lemma run_completes :
  ∃ w, run m d0 = Done (records_of m d0) w ∧
       disk w = renumbered m d0 <$> d0 ∧
       NoDup (names (disk w)) ∧ sound d0 w.
Proof. apply run_done; [apply temp_name_free|apply final_name_free]. Qed.

End completion.

(** The run stops at a [rename] from [src] onto the occupied name [dst]. *)
Definition collides (m : gmap N N) (d : list entry) (src dst : string) : Prop :=
  ∃ w c, run m d = Raised FileExistsError w ∧ last (history w) = Some c ∧
    call_src c = src ∧ call_dst c = dst ∧ dst ∈ names (call_listing c).




Section second_run.

Lemma phase1_step_skip (m : gmap N N) (R : records) (k : N) (w : world) :
  first_match k (disk w) = None → phase1_step m R k w = Done R w.
Proof.
  intros Hf. unfold phase1_step. destruct (m !! k); [|done].
  unfold iterdir. by rewrite bind_run, scan_first_match, Hf.
Qed.

Lemma phase1_all_skip (m : gmap N N) (R : records) (ks : list N) (w : world) :
  (∀ k, k ∈ ks → first_match k (disk w) = None) →
  foldM (phase1_step m) R ks w = Done R w.
Proof.
  induction ks as [|k ks IH]; intros Hks; [done|].
  rewrite foldM_cons, phase1_step_skip by (apply Hks, list_elem_of_here).
  apply IH. intros; by apply Hks, list_elem_of_further.
Qed.

(** A run on a directory where no key has a match does nothing but print. *)
Lemma run_all_skip (m : gmap N N) (d : list entry) :
  (∀ k, is_Some (m !! k) → first_match k d = None) →
  ∃ w, run m d = Done ∅ w ∧ disk w = d ∧ history w = [].
Proof.
  intros Hskip. rewrite run_unfold, phase1_all_skip.
  - rewrite sorted_keys_empty. simpl. by eexists.
  - intros k Hk. apply Hskip. by apply sorted_keys_reverse_elem.
Qed.

End second_run.

(** C3 fails as stated.  On the scenario of the specification itself the
    second run finds [10. Loops] under the key 10 and renames it to
    [12. Loops]; and where two directories bear the ordinal 8, the second
    run stages and commits the one the first run left behind. *)
Lemma C3_counterexample :
  (∃ R1 w1 R2 w2,
     run scenario_map scenario_dirs = Done R1 w1 ∧
     names (disk w1) = ["10. Loops"; "11. Conditionals"; "12. Arrays"] ∧
     run scenario_map (disk w1) = Done R2 w2 ∧
     names (disk w2) = ["12. Loops"; "11. Conditionals"; "12. Arrays"] ∧
     call_pair <$> history w2 =
       [("10. Loops", "TEMP_12. Loops"); ("TEMP_12. Loops", "12. Loops")]) ∧
  (∃ R1 w1 R2 w2,
     run {[8 := 10]} [dir "08. Loops"; dir "8. Arrays"] = Done R1 w1 ∧
     names (disk w1) = ["10. Loops"; "8. Arrays"] ∧
     run {[8 := 10]} (disk w1) = Done R2 w2 ∧
     names (disk w2) = ["10. Loops"; "10. Arrays"]).
Proof.
  split.
  - eexists _, _, _, _. split; [vm_compute; reflexivity|].
    split; [by vm_compute|]. split; [vm_compute; reflexivity|].
    split; by vm_compute.
  - eexists _, _, _, _. split; [vm_compute; reflexivity|].
    split; [by vm_compute|]. split; [vm_compute; reflexivity|].
    by vm_compute.
Qed.

(** C3, amended.  When no new ordinal of the map is a key of the map and
    the matching children have pairwise distinct ordinals, running the
    program a second time on the directory a first complete run of the same
    map has left finds no match for any key of the map, and leaves the
    directory as it is: no rename is performed, in either phase. *)
Theorem C3_second_run_skips
    (m : gmap N N) (d0 : list entry) (R : records) (w : world) :
  (∀ k n, m !! k = Some n → m !! n = None) →
  NoDup (names d0) → distinct_ordinals d0 →
  run m d0 = Done R w →
  (∀ k x l, is_Some (m !! k) → x ∈ disk w → candidate x ≠ Some (k, l)) ∧
  ∃ w2, run m (disk w) = Done ∅ w2 ∧ disk w2 = disk w ∧ history w2 = [].
Proof.
  intros Hdisj Hnd Hdist Hrun.
  pose proof (run_spec m d0 Hnd) as Hspec. rewrite Hrun in Hspec.
  destruct Hspec as (-> & Hd & _ & _).
  assert (∀ k x l, is_Some (m !! k) → x ∈ disk w → candidate x ≠ Some (k, l))
    as Hnone.
  { intros k x l Hk. rewrite Hd. intros (x0 & -> & Hx0)%list_elem_of_fmap Hc.
    unfold renumbered, placed in Hc.
    destruct (chosen m d0 (sorted_keys_reverse m) x0) as [[n' l']|] eqn:E.
    - apply chosen_Some in E as (k0 & Hc0 & _ & _ & Hm0).
      case_decide.
      + rewrite candidate_final in Hc by (by eapply candidate_valid).
        rewrite (candidate_is_dir x0 k0 l' Hc0) in Hc. injection Hc as -> ->.
        rewrite (Hdisj k0 k Hm0) in Hk. by destruct Hk.
      + by rewrite candidate_temp in Hc.
    - destruct Hk as [n Hk].
      assert (chosen m d0 (sorted_keys_reverse m) x0 = Some (n, l)) as E'.
      { apply chosen_Some. exists k. repeat split; [done| |by apply first_match_distinct|done].
        apply sorted_keys_reverse_elem. by rewrite Hk. }
      congruence. }
  split; [done|]. apply run_all_skip.
  intros k Hk. apply first_match_None. intros x l. by apply Hnone.
Qed.

Lemma C3_witness :
  ∃ w1 w2,
    run {[8 := 10; 9 := 11]} [dir "08. Loops"; dir "09. Conditionals"]
      = Done {[10 := ("TEMP_10. Loops", "Loops");
               11 := ("TEMP_11. Conditionals", "Conditionals")]} w1 ∧
    run {[8 := 10; 9 := 11]} (disk w1) = Done ∅ w2 ∧
    disk w2 = disk w1 ∧ history w2 = [].
Proof.
  assert (∃ R w1, run {[8 := 10; 9 := 11]}
            [dir "08. Loops"; dir "09. Conditionals"] = Done R w1 ∧
          R = {[10 := ("TEMP_10. Loops", "Loops");
                11 := ("TEMP_11. Conditionals", "Conditionals")]})
    as (R & w1 & Hrun & ->).
  { eexists _, _. split; [vm_compute; reflexivity|]. by vm_compute. }
  exists w1.
  assert (∀ k n : N, ({[8 := 10; 9 := 11]} : gmap N N) !! k = Some n →
            ({[8 := 10; 9 := 11]} : gmap N N) !! n = None) as Hdisj.
  { intros k n Hk. apply lookup_insert_Some in Hk as [[<- <-]|[_ Hk]]; [done|].
    apply lookup_singleton_Some in Hk as [<- <-]. done. }
  assert (NoDup (names [dir "08. Loops"; dir "09. Conditionals"])) as Hnd.
  { apply (bool_decide_unpack _). by vm_compute. }
  assert (distinct_ordinals [dir "08. Loops"; dir "09. Conditionals"]) as Hdist.
  { apply distinct_ordinals_check. apply (bool_decide_unpack _). by vm_compute. }
  destruct (C3_second_run_skips _ _ _ _ Hdisj Hnd Hdist Hrun) as [_ (w2 & H2)].
  by exists w2.
Defined.

(** ** Keys that share a new ordinal *)

Section overwriting.

Variable m : gmap N N.
Variable d0 : list entry.
Hypothesis d0_NoDup : NoDup (names d0).

(** The key [k] writes a record under the new ordinal [n]. *)
Definition writes (n k : N) : Prop :=
  m !! k = Some n ∧ is_Some (first_match k d0).

(** The record under [n] is that of the last key that writes it. *)
Lemma last_writer ks : ∀ (R0 : records) n,
  (∃ k, k ∈ ks ∧ writes n k) →
  ∃ pre k post e l, ks = pre ++ k :: post ∧
    m !! k = Some n ∧ first_match k d0 = Some (e, l) ∧
    foldl (record_step m d0) R0 ks !! n = Some (temp_name n l, l) ∧
    ∀ k', k' ∈ post → ¬ writes n k'.
Proof.
  induction ks as [|k0 ks IH] using rev_ind; intros R0 n (k & Hk & Hw).
  { by apply elem_of_nil in Hk. }
  rewrite foldl_app. simpl.
  destruct (decide (writes n k0)) as [[Hm0 [[e0 l0] Hf0]] | Hno].
  - exists ks, k0, [], e0, l0. split; [done|]. split; [done|]. split; [done|].
    split; [|by intros ? ?%elem_of_nil].
    unfold record_step. rewrite Hm0, Hf0. apply lookup_insert_eq.
  - assert (k ∈ ks) as Hk'.
    { apply elem_of_app in Hk as [Hk | ->%list_elem_of_singleton]; done. }
    destruct (IH R0 n) as (pre & k' & post & e & l & -> & Hm & Hf & HR & Hpost);
      [by exists k|].
    exists pre, k', (post ++ [k0]), e, l. split; [by rewrite <- app_assoc|].
    split; [done|]. split; [done|]. split.
    + unfold record_step. destruct (m !! k0) as [n0|] eqn:Hm0; [|done].
      destruct (first_match k0 d0) as [[e0 l0]|] eqn:Hf0; [|done].
      rewrite lookup_insert_ne; [done|]. intros ->. apply Hno. by split.
    + intros k'' [Hin | ->%list_elem_of_singleton]%elem_of_app; [by apply Hpost|done].
Qed.

(** When phase 1 completes, each temporary name was free at its turn. *)
Lemma phase1_fold_free ks : ∀ K R w R' w',
  NoDup (K ++ ks) → disk w = stage m d0 K <$> d0 → NoDup (names (disk w)) →
  foldM (phase1_step m) R ks w = Done R' w' →
  ∀ pre k post n e l, ks = pre ++ k :: post →
    m !! k = Some n → first_match k d0 = Some (e, l) →
    temp_name n l ∉ names (stage m d0 (K ++ pre) <$> d0).
Proof.
  induction ks as [|k0 ks IH]; intros K R w R' w' Hks Hd Hnd Hrun pre k post n e l Heq Hm Hf.
  { by destruct pre. }
  assert (k0 ∉ K) as Hk0.
  { apply NoDup_app in Hks as (_ & Hks & _). intros Hin.
    apply (Hks k0 Hin), list_elem_of_here. }
  rewrite foldM_cons in Hrun.
  pose proof (phase1_step_spec m d0 d0_NoDup K R k0 w Hk0 Hd Hnd) as Hstep.
  destruct pre as [|p pre]; simpl in Heq; injection Heq as -> ->.
  - rewrite app_nil_r, Hm, Hf in *. case_decide as Hdec.
    + destruct Hstep as [w1 Hstep]. by rewrite Hstep in Hrun.
    + by rewrite <- Hd.
  - assert (NoDup ((K ++ [p]) ++ pre ++ k :: post)) as Hks'
      by (by rewrite <- app_assoc).
    replace (K ++ p :: pre) with ((K ++ [p]) ++ pre) by (by rewrite <- app_assoc).
    destruct (m !! p) as [np|]; [destruct (first_match p d0) as [[ep lp]|]|].
    + case_decide.
      * destruct Hstep as [w1 Hstep]. by rewrite Hstep in Hrun.
      * destruct Hstep as (w1 & Hstep & Hd1 & Hnd1 & _). rewrite Hstep in Hrun.
        by eapply (IH (K ++ [p]) _ w1 R' w').
    + destruct Hstep as (Hstep & _ & Hs). rewrite Hstep in Hrun.
      eapply (IH (K ++ [p]) R w R' w'); [done|congruence|done..].
    + destruct Hstep as (Hstep & _ & Hs). rewrite Hstep in Hrun.
      eapply (IH (K ++ [p]) R w R' w'); [done|congruence|done..].
Qed.

End overwriting.



(** * Beyond the claims: the script as a whole *)

(** ** The run as a one-shot renaming *)

(** What the script is for, item by item: a directory whose name matches the
    pattern with an ordinal that is a key of the map gets the new ordinal
    and keeps its label; every other entry stays as it is. *)
Definition renumber_entry (m : gmap N N) (e : entry) : entry :=
  match candidate e with
  | Some (k, l) =>
      match m !! k with
      | Some n' => Entry (final_name n' l) (is_dir e)
      | None => e
      end
  | None => e
  end.

Lemma final_name_no_marker (n : N) (l : string) :
  has_marker (final_name n l) = false.
Proof.
  unfold final_name. pose proof (fmt02_digits n) as Hd.
  pose proof (fmt02_nonempty n) as Hne.
  destruct (fmt02 n) as [|c r]; [done|]. simpl in Hd.
  apply andb_true_iff in Hd as [Hc _].
  change (String c r +:+ ". " +:+ l) with (String c (r +:+ ". " +:+ l)).
  unfold has_marker. destruct (Ascii.eqb_spec c "T") as [-> | Hne']; [done|].
  destruct c as [[] [] [] [] [] [] [] []]; try done.
Qed.

(** Under an injective map and distinct ordinals, the two phases of a run
    that completes amount to [renumber_entry] on each item. *)
Lemma renumbered_renumber_entry (m : gmap N N) (d0 : list entry) (e : entry) :
  injective m → distinct_ordinals d0 → e ∈ d0 →
  renumbered m d0 e = renumber_entry m e.
Proof.
  intros Hinj Hdist He. unfold renumbered, placed, renumber_entry.
  destruct (candidate e) as [[k l]|] eqn:Hc.
  - pose proof (first_match_distinct d0 e k l Hdist He Hc) as Hf.
    destruct (m !! k) as [n'|] eqn:Hm.
    + assert (k ∈ sorted_keys_reverse m) as Hk
        by (apply sorted_keys_reverse_elem; by rewrite Hm).
      assert (chosen m d0 (sorted_keys_reverse m) e = Some (n', l)) as ->.
      { apply chosen_Some. by exists k. }
      pose proof (foldl_record_lookup m d0 _ ∅ k n' e l Hinj Hk Hm Hf) as HR.
      fold (records_of m d0) in HR.
      rewrite decide_True; [done|]. split; [|done].
      apply sorted_keys_elem. by rewrite HR.
    + assert (chosen m d0 (sorted_keys_reverse m) e = None) as ->; [|done].
      unfold chosen. rewrite Hc, Hm. by case_decide.
  - assert (chosen m d0 (sorted_keys_reverse m) e = None) as ->; [|done].
    unfold chosen. by rewrite Hc.
Qed.

Lemma run_renumber_entry (m : gmap N N) (d0 : list entry) (R : records) (w : world) :
  injective m → NoDup (names d0) → distinct_ordinals d0 →
  run m d0 = Done R w → disk w = renumber_entry m <$> d0.
Proof.
  intros Hinj Hnd Hdist Hrun.
  pose proof (run_spec m d0 Hnd) as Hspec. rewrite Hrun in Hspec.
  destruct Hspec as (_ & -> & _ & _). apply list_fmap_ext. intros i e Hi.
  apply renumbered_renumber_entry; [done..|]. by eapply list_elem_of_lookup_2.
Qed.



(** X2. The outcome does not depend on the order in which the directory is
    listed: two runs that complete from two listings of the same entries
    leave the same entries. *)
Theorem run_independent_of_listing_order
    (m : gmap N N) (d0 d0' : list entry) (R R' : records) (w w' : world) :
  injective m → NoDup (names d0) → distinct_ordinals d0 →
  d0 ≡ₚ d0' →
  run m d0 = Done R w → run m d0' = Done R' w' →
  disk w ≡ₚ disk w'.
Proof.
  intros Hinj Hnd Hdist Hperm Hrun Hrun'.
  rewrite (run_renumber_entry m d0 R w Hinj Hnd Hdist Hrun).
  rewrite (run_renumber_entry m d0' R' w' Hinj); [by rewrite Hperm| | |done].
  - unfold names. by rewrite <- Hperm.
  - intros e1 e2 n l1 l2 H1 H2. rewrite <- Hperm in H1, H2. by apply Hdist.
Qed.

Lemma run_independent_of_listing_order_witness :
  ∃ R w R' w',
    run swap_8_10 [dir "08. Loops"; dir "10. Arrays"] = Done R w ∧
    run swap_8_10 [dir "10. Arrays"; dir "08. Loops"] = Done R' w' ∧
    disk w ≡ₚ disk w'.
Proof.
  assert (∃ R w, run swap_8_10 [dir "08. Loops"; dir "10. Arrays"] = Done R w)
    as (R & w & Hrun).
  { eexists _, _. vm_compute. reflexivity. }
  assert (∃ R w, run swap_8_10 [dir "10. Arrays"; dir "08. Loops"] = Done R w)
    as (R' & w' & Hrun').
  { eexists _, _. vm_compute. reflexivity. }
  exists R, w, R', w'. split; [exact Hrun|]. split; [exact Hrun'|].
  refine (run_independent_of_listing_order swap_8_10 _ _ R R' w w'
            _ _ _ _ Hrun Hrun').
  - apply permutation_check; vm_compute; [|repeat constructor; by eexists].
    apply (bool_decide_unpack _). by vm_compute.
  - apply (bool_decide_unpack _). by vm_compute.
  - apply distinct_ordinals_check. apply (bool_decide_unpack _). by vm_compute.
  - apply (bool_decide_unpack _). by vm_compute.
Defined.

(** ** The shape of a turn *)

(** The line printed before a rename. *)
Definition log_line (src dst : string) : string :=
  "  " +:+ src +:+ " -> " +:+ dst.

Definition call_line (c : rename_call) : string :=
  log_line (call_src c) (call_dst c).

Definition printed (line : string) (w : world) : world :=
  World (disk w) (stdout w ++ [line]) (history w).

Section shapes.

(** The four ways a [rename] can go. *)
Lemma os_rename_shape (src dst : string) (w : world) :
  let h := history w ++ [Call (disk w) src dst] in
  (src ∈ names (disk w) ∧ (dst ∉ names (disk w)) ∧
   os_rename src dst w
   = Done tt (World (rename_entry src dst <$> disk w) (stdout w) h)) ∨
  (src ∈ names (disk w) ∧ dst = src ∧
   os_rename src dst w = Done tt (World (disk w) (stdout w) h)) ∨
  (src ∈ names (disk w) ∧ dst ∈ names (disk w) ∧ dst ≠ src ∧
   os_rename src dst w = Raised FileExistsError (World (disk w) (stdout w) h)) ∨
  ((src ∉ names (disk w)) ∧
   os_rename src dst w = Raised FileNotFoundError (World (disk w) (stdout w) h)).
Proof.
  unfold os_rename. simpl. repeat case_decide; naive_solver.
Qed.

(** A turn of phase 1 either leaves everything as it is, or prints a line
    and renames the first match to its temporary name. *)
Lemma phase1_step_shape (m : gmap N N) (R : records) (k : N) (w : world) :
  phase1_step m R k w = Done R w ∨
  ∃ item l n', m !! k = Some n' ∧ first_match k (disk w) = Some (item, l) ∧
    phase1_step m R k w =
    match os_rename (name item) (temp_name n' l)
            (printed (log_line (name item) (temp_name n' l)) w) with
    | Done _ w' => Done (<[n' := (temp_name n' l, l)]> R) w'
    | Raised e w' => Raised e w'
    end.
Proof.
  unfold phase1_step. destruct (m !! k) as [n'|] eqn:Hm; [|by left].
  unfold iterdir. rewrite bind_run, scan_first_match.
  destruct (first_match k (disk w)) as [[item l]|] eqn:Hf; [|by left].
  right. exists item, l, n'. do 2 (split; [done|]).
  rewrite print_bind, bind_run. unfold printed, log_line.
  by destruct (os_rename _ _ _) as [[] ?|].
Qed.

(** A turn of phase 2 prints a line and renames the recorded temporary
    name to the final name. *)
Lemma phase2_step_shape (R : records) (n : N) (w : world) :
  phase2_step R tt n w = Done tt w ∨
  ∃ t l, R !! n = Some (t, l) ∧
    phase2_step R tt n w =
    os_rename t (final_name n l) (printed (log_line t (final_name n l)) w).
Proof.
  destruct (R !! n) as [[t l]|] eqn:HR.
  - right. exists t, l. split; [done|]. by apply phase2_step_run.
  - left. unfold phase2_step. by rewrite HR.
Qed.

(** As [foldM_invariant], when what holds at an exception depends on it. *)
Lemma foldM_invariant_err {A B} (I : B → world → Prop)
    (J : OSError → world → Prop)
    (f : B → A → M B) (l : list A) (b : B) (w : world) :
  (∀ b w x, x ∈ l → I b w →
     match f b x w with Done b' w' => I b' w' | Raised e w' => J e w' end) →
  I b w →
  match foldM f b l w with Done b' w' => I b' w' | Raised e w' => J e w' end.
Proof.
  revert b w. induction l as [|x l IH]; intros b w Hf HI; [done|].
  rewrite foldM_cons.
  pose proof (Hf b w x (list_elem_of_here _ _) HI) as Hx.
  destruct (f b x w) as [b' w'|]; [|done].
  apply IH; [|done]. intros ??? Hin. apply Hf. by apply list_elem_of_further.
Qed.

(** What printing keeps and every [rename] keeps, a run keeps, however it
    ends. *)
Lemma run_invariant (P : world → Prop) (m : gmap N N) (d0 : list entry) :
  (∀ line w, P w → P (printed line w)) →
  (∀ src dst w, P w → P (final_world (os_rename src dst w))) →
  P (World d0 [] []) → P (final_world (run m d0)).
Proof.
  intros Hprint Hrename H0. rewrite run_unfold.
  pose proof (foldM_invariant (λ _ w, P w) P (phase1_step m)
    (sorted_keys_reverse m) ∅
    (World d0 ["Phase 1: Renaming to temporary names..."] [])) as H1.
  destruct (foldM (phase1_step m) _ _ _) as [R w1|err w1]; simpl; [|apply H1].
  - pose proof (foldM_invariant (λ _ w, P w) P (phase2_step R)
      (sorted_keys R) tt
      (printed (nl +:+ "Phase 2: Renaming to final names...") w1)) as H2.
    unfold printed in H2.
    destruct (foldM (phase2_step R) _ _ _) as [[] w2|err w2]; simpl.
    + apply (Hprint _ w2), H2.
      * intros [] w x _ Hw. destruct (phase2_step_shape R x w) as [-> | (t & l & _ & ->)]; [done|].
        pose proof (Hrename t (final_name x l) _ (Hprint (log_line t (final_name x l)) w Hw)) as Hr.
        by destruct (os_rename _ _ _).
      * apply (Hprint _ w1), H1; [|by apply (Hprint _ (World d0 [] []))].
        intros b w x _ Hw.
        destruct (phase1_step_shape m b x w) as [-> | (item & l & n' & _ & _ & ->)]; [done|].
        pose proof (Hrename (name item) (temp_name n' l) _
          (Hprint (log_line (name item) (temp_name n' l)) w Hw)) as Hr.
        by destruct (os_rename _ _ _).
    + apply H2.
      * intros [] w x _ Hw. destruct (phase2_step_shape R x w) as [-> | (t & l & _ & ->)]; [done|].
        pose proof (Hrename t (final_name x l) _ (Hprint (log_line t (final_name x l)) w Hw)) as Hr.
        by destruct (os_rename _ _ _).
      * apply (Hprint _ w1), H1; [|by apply (Hprint _ (World d0 [] []))].
        intros b w x _ Hw.
        destruct (phase1_step_shape m b x w) as [-> | (item & l & n' & _ & _ & ->)]; [done|].
        pose proof (Hrename (name item) (temp_name n' l) _
          (Hprint (log_line (name item) (temp_name n' l)) w Hw)) as Hr.
        by destruct (os_rename _ _ _).
  - intros b w x _ Hw.
    destruct (phase1_step_shape m b x w) as [-> | (item & l & n' & _ & _ & ->)]; [done|].
    pose proof (Hrename (name item) (temp_name n' l) _
      (Hprint (log_line (name item) (temp_name n' l)) w Hw)) as Hr.
    by destruct (os_rename _ _ _).
  - by apply (Hprint _ (World d0 [] [])).
Qed.

End shapes.


(** ** A run that aborts *)

Section aborts.

Lemma rename_entry_same (s : string) (d : list entry) :
  rename_entry s s <$> d = d.
Proof.
  rewrite <- (list_fmap_id d) at 2. apply list_fmap_ext. intros i [nm b] _.
  unfold rename_entry. simpl. case_decide; [by subst|done].
Qed.

Variable d0 : list entry.

(** The world after an exception: the failing call is the last of the
    history and was announced by the last line printed, the directory is as
    that call found it, which is what the calls before it made of the
    initial listing; if the target was occupied, it is still there. *)
Definition aborted (e : OSError) (w : world) : Prop :=
  ∃ h c, history w = h ++ [c] ∧ chain d0 h (disk w) ∧
    call_listing c = disk w ∧ last (stdout w) = Some (call_line c) ∧
    (e = FileExistsError →
       call_src c ∈ names (disk w) ∧ call_dst c ∈ names (disk w) ∧
       call_dst c ≠ call_src c).

Definition replayed (w : world) : Prop := chain d0 (history w) (disk w).

Lemma os_rename_replayed (src dst : string) (w : world) :
  replayed w →
  match os_rename src dst (printed (log_line src dst) w) with
  | Done _ w' => replayed w'
  | Raised e w' => aborted e w'
  end.
Proof.
  intros Hw. unfold replayed in *.
  destruct (os_rename_shape src dst (printed (log_line src dst) w))
    as [(_ & _ & ->)|[(_ & -> & ->)|[(Hs & Hd & Hne & ->)|(_ & ->)]]]; simpl.
  - by apply chain_snoc.
  - rewrite <- (rename_entry_same src (disk w)) at 2. by apply chain_snoc.
  - exists (history w), (Call (disk w) src dst). simpl.
    do 3 (split; [done|]). split; [apply last_snoc|done].
  - exists (history w), (Call (disk w) src dst). simpl.
    do 3 (split; [done|]). split; [apply last_snoc|done].
Qed.

Lemma run_replayed (m : gmap N N) :
  match run m d0 with
  | Done _ w => replayed w
  | Raised e w => aborted e w
  end.
Proof.
  rewrite run_unfold.
  pose proof (foldM_invariant_err (λ _ w, replayed w) aborted (phase1_step m)
    (sorted_keys_reverse m) ∅
    (World d0 ["Phase 1: Renaming to temporary names..."] [])) as H1.
  assert (∀ (b : records) w x, x ∈ sorted_keys_reverse m → replayed w →
            match phase1_step m b x w with
            | Done _ w' => replayed w'
            | Raised e w' => aborted e w'
            end) as Hstep1.
  { intros b w x _ Hw.
    destruct (phase1_step_shape m b x w) as [-> | (item & l & n' & _ & _ & ->)]; [done|].
    pose proof (os_rename_replayed (name item) (temp_name n' l) w Hw) as Hr.
    by destruct (os_rename _ _ _). }
  specialize (H1 Hstep1 eq_refl).
  destruct (foldM (phase1_step m) _ _ _) as [R w1|err w1]; [|done].
  pose proof (foldM_invariant_err (λ _ w, replayed w) aborted (phase2_step R)
    (sorted_keys R) tt
    (printed (nl +:+ "Phase 2: Renaming to final names...") w1)) as H2.
  unfold printed in H2.
  destruct (foldM (phase2_step R) _ _ _) as [[] w2|err w2]; apply H2; try done.
  - intros [] w x _ Hw.
    destruct (phase2_step_shape R x w) as [-> | (t & l & _ & ->)]; [done|].
    by apply os_rename_replayed.
  - intros [] w x _ Hw.
    destruct (phase2_step_shape R x w) as [-> | (t & l & _ & ->)]; [done|].
    by apply os_rename_replayed.
Qed.

End aborts.



(** ** What a run prints *)

Section transcript.

Lemma os_rename_stdout (src dst : string) (w : world) :
  stdout (final_world (os_rename src dst w)) = stdout w.
Proof. unfold os_rename. by repeat case_decide. Qed.

(** A call of phase 1 targets a temporary name, a call of phase 2 a final
    name. *)
Definition stages (c : rename_call) : Prop := has_marker (call_dst c) = true.
Definition commits (c : rename_call) : Prop := has_marker (call_dst c) = false.

(** Through phase 1: one line per call, after the heading. *)
Definition logged1 (w : world) : Prop :=
  stdout w = "Phase 1: Renaming to temporary names..." :: (call_line <$> history w) ∧
  Forall stages (history w).

(** Through phase 2, after the calls [h1] of phase 1. *)
Definition logged2 (h1 : list rename_call) (w : world) : Prop :=
  ∃ h2, history w = h1 ++ h2 ∧ Forall commits h2 ∧
    stdout w = "Phase 1: Renaming to temporary names..." :: (call_line <$> h1)
               ++ (nl +:+ "Phase 2: Renaming to final names...")
               :: (call_line <$> h2).

Lemma phase1_step_logged (m : gmap N N) (R : records) (k : N) (w : world) :
  logged1 w → logged1 (final_world (phase1_step m R k w)).
Proof.
  intros [Hout Hh].
  destruct (phase1_step_shape m R k w) as [-> | (item & l & n' & _ & _ & ->)]; [done|].
  set (src := name item). set (dst := temp_name n' l).
  pose proof (os_rename_history src dst (printed (log_line src dst) w)) as Hhist.
  pose proof (os_rename_stdout src dst (printed (log_line src dst) w)) as Hstd.
  assert (logged1 (final_world (os_rename src dst (printed (log_line src dst) w)))) as Hl.
  { split.
    - rewrite Hstd, Hhist. simpl. by rewrite Hout, fmap_app.
    - rewrite Hhist. simpl. apply Forall_app. split; [done|].
      apply Forall_singleton. apply temp_name_marker. }
  by destruct (os_rename _ _ _).
Qed.

Lemma phase2_step_logged (h1 : list rename_call) (R : records) (n : N) (w : world) :
  logged2 h1 w → logged2 h1 (final_world (phase2_step R tt n w)).
Proof.
  intros (h2 & Hh & Hc & Hout).
  destruct (phase2_step_shape R n w) as [-> | (t & l & _ & ->)]; [by exists h2|].
  set (dst := final_name n l).
  pose proof (os_rename_history t dst (printed (log_line t dst) w)) as Hhist.
  pose proof (os_rename_stdout t dst (printed (log_line t dst) w)) as Hstd.
  exists (h2 ++ [Call (disk w) t dst]). split; [|split].
  - rewrite Hhist. simpl. by rewrite Hh, app_assoc.
  - apply Forall_app. split; [done|]. apply Forall_singleton.
    apply final_name_no_marker.
  - rewrite Hstd. simpl. rewrite Hout, fmap_app. simpl.
    by rewrite <- app_assoc.
Qed.

End transcript.

(** X5. The log is faithful.  Whatever the map and the directory, a run
    prints the heading of phase 1, one line [  src -> dst] for each rename
    it calls in phase 1, in order; then, if phase 1 completes, the heading
    of phase 2 and one such line for each rename it calls in phase 2, in
    order; and the completion line exactly when the run completes.  The
    line of a rename that fails is printed as well. *)
Theorem run_prints_every_rename (m : gmap N N) (d0 : list entry) :
  ∃ h1 h2, history (final_world (run m d0)) = h1 ++ h2 ∧
    Forall stages h1 ∧ Forall commits h2 ∧
    match run m d0 with
    | Done _ w =>
        stdout w =
          "Phase 1: Renaming to temporary names..." :: (call_line <$> h1)
          ++ (nl +:+ "Phase 2: Renaming to final names...") :: (call_line <$> h2)
          ++ [nl +:+ "✅ Folder renumbering complete!"]
    | Raised _ w =>
        (h2 = [] ∧
         stdout w =
           "Phase 1: Renaming to temporary names..." :: (call_line <$> h1)) ∨
        stdout w =
          "Phase 1: Renaming to temporary names..." :: (call_line <$> h1)
          ++ (nl +:+ "Phase 2: Renaming to final names...") :: (call_line <$> h2)
    end.
Proof.
  rewrite run_unfold.
  pose proof (foldM_invariant (λ _ w, logged1 w) logged1 (phase1_step m)
    (sorted_keys_reverse m) ∅
    (World d0 ["Phase 1: Renaming to temporary names..."] [])) as H1.
  assert (match foldM (phase1_step m) ∅ (sorted_keys_reverse m)
                  (World d0 ["Phase 1: Renaming to temporary names..."] []) with
          | Done _ w' => logged1 w' | Raised _ w' => logged1 w' end) as Hl1.
  { apply H1; [|by split].
    intros b w x _ Hw. pose proof (phase1_step_logged m b x w Hw) as Hs.
    by destruct (phase1_step m b x w). }
  clear H1. destruct (foldM (phase1_step m) _ _ _) as [R w1|err w1].
  2: { destruct Hl1 as [Hout Hh]. exists (history w1), []. simpl.
       rewrite app_nil_r. do 3 (split; [done|]). by left. }
  destruct Hl1 as [Hout1 Hh1].
  pose proof (foldM_invariant (λ _ w, logged2 (history w1) w) (logged2 (history w1))
    (phase2_step R) (sorted_keys R) tt
    (World (disk w1) (stdout w1 ++ [nl +:+ "Phase 2: Renaming to final names..."])
       (history w1))) as H2.
  assert (match foldM (phase2_step R) tt (sorted_keys R)
                  (World (disk w1)
                     (stdout w1 ++ [nl +:+ "Phase 2: Renaming to final names..."])
                     (history w1)) with
          | Done _ w' => logged2 (history w1) w'
          | Raised _ w' => logged2 (history w1) w' end) as Hl2.
  { apply H2.
    - intros [] w x _ Hw. pose proof (phase2_step_logged (history w1) R x w Hw) as Hs.
      by destruct (phase2_step R tt x w).
    - exists []. simpl. rewrite app_nil_r. do 2 (split; [done|]).
      by rewrite Hout1. }
  clear H2. destruct (foldM (phase2_step R) _ _ _) as [[] w2|err w2];
    destruct Hl2 as (h2 & Hh & Hc & Hout2); exists (history w1), h2; simpl.
  - do 3 (split; [done|]). rewrite Hout2. simpl. by rewrite <- app_assoc.
  - do 3 (split; [done|]). by right.
Qed.

(** ** The names the script builds *)

(** X6. The names the script builds and the pattern it reads agree: for any
    label the pattern has captured and any ordinal, the final name is
    matched again by the pattern, with that ordinal (read back by [int]
    from its two or more digits) and that label, so that a later run finds
    the directory again; the temporary name is never matched, so that no
    turn of phase 1 finds a directory already staged. *)
Theorem built_names_round_trip (s group1 label : string) (n : N) :
  Re.re_match s = Some (group1, label) →
  Re.re_match (final_name n label) = Some (fmt02 n, label) ∧
  int (fmt02 n) = n ∧
  candidate (Entry (final_name n label) true) = Some (n, label) ∧
  Re.re_match (temp_name n label) = None.
Proof.
  intros Hre. apply re_match_spec in Hre as (_ & _ & Hl & _).
  split; [by apply re_match_final|]. split; [apply int_fmt02|].
  split; [by apply (candidate_final n label true)|apply re_match_temp].
Qed.

Lemma built_names_round_trip_witness :
  Re.re_match (final_name 7 "Loops") = Some ("07", "Loops") ∧
  int (fmt02 7) = 7 ∧
  candidate (Entry (final_name 7 "Loops") true) = Some (7, "Loops") ∧
  Re.re_match (temp_name 7 "Loops") = None.
Proof.
  apply (built_names_round_trip "123. Loops" "123" "Loops" 7). by vm_compute.
Defined.

(** ** Nothing to do *)

(** X7. When no directory of the listing matches the pattern with an ordinal
    that is a key of the map (an empty directory, an empty map, only files,
    only other ordinals), the run completes, renames nothing, records
    nothing, and prints its three framing lines and nothing else. *)
Theorem run_without_match_only_prints (m : gmap N N) (d : list entry) :
  (∀ item g1 g2, item ∈ d → is_dir item = true →
     Re.re_match (name item) = Some (g1, g2) → m !! int g1 = None) →
  run m d =
  Done ∅
    (World d
       ["Phase 1: Renaming to temporary names...";
        nl +:+ "Phase 2: Renaming to final names...";
        nl +:+ "✅ Folder renumbering complete!"]
       []).
Proof.
  intros Hnone. rewrite run_unfold, phase1_all_skip.
  - by rewrite sorted_keys_empty.
  - intros k [n Hk]%sorted_keys_reverse_elem. apply first_match_None.
    intros x l Hx (Hdir & g1 & Hre & <-)%candidate_spec.
    by rewrite (Hnone x g1 l Hx Hdir Hre) in Hk.
Qed.

Lemma run_without_match_only_prints_witness :
  run renumbering [dir "01. Intro"; file "08. notes"; dir "docs"] =
  Done ∅
    (World [dir "01. Intro"; file "08. notes"; dir "docs"]
       ["Phase 1: Renaming to temporary names...";
        nl +:+ "Phase 2: Renaming to final names...";
        nl +:+ "✅ Folder renumbering complete!"]
       []).
Proof.
  apply run_without_match_only_prints.
  intros item g1 g2 Hin Hdir Hre.
  apply elem_of_cons in Hin as [-> | Hin].
  { vm_compute in Hre. injection Hre as <- _. by vm_compute. }
  apply elem_of_cons in Hin as [-> | Hin]; [done|].
  apply elem_of_cons in Hin as [-> | Hin]; [by vm_compute in Hre|].
  by apply elem_of_nil in Hin.
Defined.

(** ** The map of the script *)

Section script_map.

Lemma renumbering_permutation : permutation renumbering.
Proof.
  apply permutation_check.
  - apply (bool_decide_unpack _). by vm_compute.
  - apply (bool_decide_unpack _). by vm_compute.
Qed.

Lemma renumbering_keys (k : N) : is_Some (renumbering !! k) ↔ 8 ≤ k ≤ 33.
Proof.
  split.
  - intros Hk%sorted_keys_elem.
    assert (sorted_keys renumbering =
      [8; 9; 10; 11; 12; 13; 14; 15; 16; 17; 18; 19; 20; 21; 22; 23; 24; 25;
       26; 27; 28; 29; 30; 31; 32; 33]) as E by (by vm_compute).
    rewrite E in Hk. clear E.
    repeat (apply elem_of_cons in Hk as [-> | Hk]; [lia|]).
    by apply elem_of_nil in Hk.
  - intros [Hlo Hhi].
    assert (∃ i, k = N.of_nat i ∧ (i < 34)%nat) as (i & -> & Hi).
    { exists (N.to_nat k). lia. }
    do 34 (destruct i as [|i]; [try lia; by eexists|]). lia.
Qed.

Lemma renumbering_moves (k n : N) : renumbering !! k = Some n → n ≠ k.
Proof.
  intros Hk. assert (is_Some (renumbering !! k)) as Hr by eauto.
  apply renumbering_keys in Hr as [Hlo Hhi].
  assert (∃ i, k = N.of_nat i ∧ (i < 34)%nat) as (i & -> & Hi).
  { exists (N.to_nat k). lia. }
  do 34 (destruct i as [|i]; [try lia; vm_compute in Hk; by injection Hk as <-|]).
  lia.
Qed.

End script_map.



(** ** Undoing a run *)

(** [m'] sends every new ordinal of [m] back to its old ordinal. *)
Definition inverse (m m' : gmap N N) : Prop :=
  ∀ k n, m !! k = Some n ↔ m' !! n = Some k.

(** The directories the map concerns are named as the script would name
    them: the ordinal as [02d] prints it, a period, a space, the label. *)
Definition canonical (m : gmap N N) (d : list entry) : Prop :=
  ∀ e k l, e ∈ d → candidate e = Some (k, l) → is_Some (m !! k) →
    name e = final_name k l.

Section undo.

Variables m m' : gmap N N.
Variable d0 : list entry.
Hypothesis m_permutation : permutation m.
Hypothesis m'_permutation : permutation m'.
Hypothesis m_m' : inverse m m'.
Hypothesis d0_NoDup : NoDup (names d0).
Hypothesis d0_distinct : distinct_ordinals d0.
Hypothesis d0_no_marker : ∀ x, x ∈ d0 → has_marker (name x) = false.
Hypothesis d0_dirs : ∀ x, x ∈ d0 → Re.re_match (name x) ≠ None → is_dir x = true.
Hypothesis d0_canonical : canonical m d0.

Lemma candidate_renumber_entry (e : entry) :
  candidate (renumber_entry m e)
  = (λ '(k, l), (default k (m !! k), l)) <$> candidate e.
Proof.
  unfold renumber_entry. destruct (candidate e) as [[k l]|] eqn:Hc; [|exact Hc].
  change (candidate (match m !! k with
                     | Some n' => Entry (final_name n' l) (is_dir e)
                     | None => e
                     end) = Some (default k (m !! k), l)).
  destruct (m !! k) as [n|]; [|exact Hc].
  rewrite (candidate_is_dir e k l Hc).
  by rewrite candidate_final by (by eapply candidate_valid).
Qed.

Lemma renumbered_distinct : distinct_ordinals (renumber_entry m <$> d0).
Proof.
  destruct m_permutation as [Hinj Hclosed].
  intros x1 x2 n l1 l2 (e1 & -> & H1)%list_elem_of_fmap
    (e2 & -> & H2)%list_elem_of_fmap.
  rewrite !candidate_renumber_entry.
  destruct (candidate e1) as [[k1 l1']|] eqn:Hc1; [|done].
  destruct (candidate e2) as [[k2 l2']|] eqn:Hc2; [|done].
  simpl. intros [= Hn1 <-] [= Hn2 <-].
  assert (k1 = k2) as ->; [|by rewrite (d0_distinct e1 e2 k2 l1' l2')].
  destruct (m !! k1) as [n1|] eqn:Hm1, (m !! k2) as [n2|] eqn:Hm2;
    simpl in *; subst.
  - by eapply Hinj.
  - apply Hclosed, elem_of_dom in Hm1 as [? Hm1]. congruence.
  - apply Hclosed, elem_of_dom in Hm2 as [? Hm2]. congruence.
  - done.
Qed.

Lemma renumbered_no_marker (x : entry) :
  x ∈ renumber_entry m <$> d0 → has_marker (name x) = false.
Proof.
  intros (e & -> & He)%list_elem_of_fmap. unfold renumber_entry.
  destruct (candidate e) as [[k l]|]; [|by apply d0_no_marker].
  destruct (m !! k); [apply final_name_no_marker|by apply d0_no_marker].
Qed.

Lemma renumbered_dirs (x : entry) :
  x ∈ renumber_entry m <$> d0 → Re.re_match (name x) ≠ None → is_dir x = true.
Proof.
  intros (e & -> & He)%list_elem_of_fmap. unfold renumber_entry.
  destruct (candidate e) as [[k l]|] eqn:Hc; [|by apply d0_dirs].
  destruct (m !! k); [|by apply d0_dirs].
  intros _. simpl. by eapply candidate_is_dir.
Qed.

Lemma renumber_entry_back (e : entry) :
  e ∈ d0 → renumber_entry m' (renumber_entry m e) = e.
Proof.
  intros He. unfold renumber_entry at 1. rewrite candidate_renumber_entry.
  destruct (candidate e) as [[k l]|] eqn:Hc; simpl.
  - destruct (m !! k) as [n|] eqn:Hm; simpl.
    + rewrite (proj1 (m_m' k n) Hm). unfold renumber_entry. rewrite Hc, Hm. simpl.
      rewrite <- (d0_canonical e k l He Hc) by (by rewrite Hm). by destruct e.
    + destruct (m' !! k) as [k0|] eqn:Hm'.
      * apply m_m' in Hm'. destruct m_permutation as [_ Hclosed].
        apply Hclosed, elem_of_dom in Hm' as [? Hm']. congruence.
      * unfold renumber_entry. by rewrite Hc, Hm.
  - unfold renumber_entry. by rewrite Hc.
Qed.

(** A run of [m] followed by a run of its inverse. *)
Lemma run_there_and_back :
  ∃ R1 w1 R2 w2,
    run m d0 = Done R1 w1 ∧ run m' (disk w1) = Done R2 w2 ∧ disk w2 = d0.
Proof.
  destruct (run_completes m d0 d0_NoDup m_permutation d0_distinct
              d0_no_marker d0_dirs) as (w1 & Hrun1 & _ & Hnd1 & _).
  pose proof (run_renumber_entry m d0 _ w1 (proj1 m_permutation) d0_NoDup
                d0_distinct Hrun1) as Hd1.
  rewrite Hd1 in Hnd1.
  destruct (run_completes m' (renumber_entry m <$> d0) Hnd1 m'_permutation
              renumbered_distinct renumbered_no_marker renumbered_dirs)
    as (w2 & Hrun2 & _).
  pose proof (run_renumber_entry m' _ _ w2 (proj1 m'_permutation) Hnd1
                renumbered_distinct Hrun2) as Hd2.
  exists (records_of m d0), w1, (records_of m' (renumber_entry m <$> d0)), w2.
  split; [done|]. rewrite Hd1. split; [done|].
  rewrite Hd2, <- list_fmap_compose. rewrite <- (list_fmap_id d0) at 2.
  apply list_fmap_ext. intros i e Hi. simpl.
  apply renumber_entry_back. by eapply list_elem_of_lookup_2.
Qed.

End undo.



(** ** Ordinals are compared as numbers *)

(** X10. The ordinal of a name is read with [int], so leading zeros do not
    count: a name that matches the pattern still matches with one more
    leading zero, with the same ordinal and the same label.  The key 8
    therefore finds [8. Loops], [08. Loops] and [008. Loops] alike, and the
    directory it finds is renamed with the new ordinal on two digits. *)
Theorem leading_zero_same_ordinal (s group1 label : string) :
  Re.re_match s = Some (group1, label) →
  Re.re_match (String "0" s) = Some (String "0" group1, label) ∧
  int (String "0" group1) = int group1 ∧
  ∀ b, candidate (Entry (String "0" s) b) = candidate (Entry s b).
Proof.
  intros Hre.
  assert (Re.re_match (String "0" s) = Some (String "0" group1, label)) as Hre0.
  { apply re_match_spec in Hre as (Hne & Hd & Hl & ws & Hws & Hs).
    apply re_match_spec. split; [done|]. split; [simpl; by rewrite Hd|].
    split; [done|]. exists ws. split; [done|].
    destruct Hs as [-> | ->]; [by left|by right]. }
  split; [done|]. split; [apply int_cons_zero|].
  intros b. unfold candidate. simpl. rewrite Hre0, Hre.
  by rewrite int_cons_zero.
Qed.

Lemma leading_zero_same_ordinal_witness :
  candidate (Entry "08. Loops" true) = candidate (Entry "8. Loops" true).
Proof.
  refine (proj2 (proj2 (leading_zero_same_ordinal "8. Loops" "8" "Loops" _)) true).
  by vm_compute.
Defined.
